(** * The razor oracle node: bounty claiming, data fetching, password
      strength and the dispute engine

    A shallow embedding of the Go sources [cmd/claimBounty.go],
    [utils/api.go] and the password prompt, together with a model of the
    dispute engine whose implementation file is not part of the sources
    (only its test file is).

    Conventions.
    - A Go [(value, error)] pair is a [result]; a [nil] error is [None].
    - Calls through the mockable interfaces ([razorUtils],
      [stakeManagerUtils], [blockManagerUtils], ...) are answered by an
      explicit environment record, and every observable action of a
      function (log line, submitted transaction) is appended to a trace.
    - Fixed-width integers are [Z] with the wrap-around written out. *)

From Stdlib Require Import ZArith List String Ascii Bool Lia.
From Equations Require Import Equations.
Import ListNotations.
Open Scope Z_scope.

(** ** Go values shared by all packages *)

Definition error := string.

Inductive result (A : Type) : Type :=
| Ok (a : A)
| Err (e : error).
Arguments Ok {A} a.
Arguments Err {A} e.

(** [int32(x)]: the low 32 bits of [x] read as a two's complement number.
    It is both the conversion from [uint32] and the wrap-around of [int32]
    arithmetic. *)
Definition int32 (x : Z) : Z := (x + 2 ^ 31) mod 2 ^ 32 - 2 ^ 31.

(** [int64(x)], likewise. *)
Definition int64 (x : Z) : Z := (x + 2 ^ 63) mod 2 ^ 64 - 2 ^ 63.

(** ** cmd/claimBounty.go *)

Module ClaimBounty.

(** [common.Hash], 32 bytes, as the number they encode; [core.NilHash] and
    [common.Hash{0x00}] are both the all-zero hash. *)
Definition common_Hash := Z.
Definition NilHash : common_Hash := 0.

(** The fields of [types.RedeemBountyInput] and of the contract's bounty
    lock that [ClaimBounty] reads. *)
Record RedeemBountyInput := {
  Address : string;
  Password : string;
  BountyId : Z            (* uint32 *)
}.

Record BountyLock := {
  RedeemAfter : Z;        (* uint32 *)
  BountyHunter : string;
  Amount : Z              (* *big.Int *)
}.

(** What [ClaimBounty] does that an observer can see. *)
Inductive Event :=
| LogError (msg : string)
| LogInfo (msg : string)
| LogDebug (msg : string)
| LogWait (waitFor : Z) (plural : bool) (timeRemaining : Z)
    (* "Cannot claim bounty now. Please wait for %d epoch(s)! ..." *)
| CallRedeemBounty (bountyId : Z).
    (* stakeManagerUtils.RedeemBounty(client, txnOpts, bountyId) *)

Section WithChain.

Variable Transaction : Type.

(** The collaborators behind [razorUtils], [stakeManagerUtils] and
    [transactionUtils]. *)
Record Chain := {
  GetEpoch : result Z;
  GetBountyLock : Z -> result BountyLock;
  RedeemBounty : Z -> result Transaction;
  Hash : Transaction -> common_Hash
}.

(** [core.EpochLength], in seconds. *)
Variable EpochLength : Z.

Definition ClaimBounty (c : Chain) (redeemBountyInput : RedeemBountyInput)
  : list Event * (common_Hash * option error) :=
  match GetEpoch c with
  | Err err => ([LogError "Error in getting epoch: "], (0, Some err))
  | Ok epoch =>
    match GetBountyLock c (BountyId redeemBountyInput) with
    | Err err => ([LogError "Error in getting bounty lock: "], (NilHash, Some err))
    | Ok bountyLock =>
      if Amount bountyLock =? 0 then
        ([LogError "bounty amount is 0"], (NilHash, Some "bounty amount is 0"%string))
      else
        let waitFor := int32 (int32 (RedeemAfter bountyLock) - int32 epoch) in
        if waitFor >? 0 then
          let timeRemaining := int64 (int64 waitFor * EpochLength) in
          ([LogInfo "Claiming bounty transaction...";
            LogDebug "Waiting for lock period to get over....";
            LogWait waitFor (negb (waitFor =? 1)) timeRemaining],
           (NilHash, None))
        else
          match RedeemBounty c (BountyId redeemBountyInput) with
          | Err err =>
            ([LogInfo "Claiming bounty transaction...";
              CallRedeemBounty (BountyId redeemBountyInput)],
             (NilHash, Some err))
          | Ok tx =>
            ([LogInfo "Claiming bounty transaction...";
              CallRedeemBounty (BountyId redeemBountyInput)],
             (Hash c tx, None))
          end
    end
  end.

Definition is_submission (e : Event) : bool :=
  match e with CallRedeemBounty _ => true | _ => false end.

(** The transactions a run submitted. *)
Definition submitted (t : list Event) : list Event := filter is_submission t.

Definition reports_wait (t : list Event) (n : Z) : Prop :=
  exists plural remaining, In (LogWait n plural remaining) t.

End WithChain.

Arguments GetEpoch {Transaction} c.
Arguments GetBountyLock {Transaction} c _.
Arguments RedeemBounty {Transaction} c _.
Arguments Hash {Transaction} c _.
Arguments ClaimBounty {Transaction} EpochLength c redeemBountyInput.

End ClaimBounty.

(** ** utils/api.go *)

Module Api.

(** What one [client.Get(url)] followed by [ReadAll] of the body gives. *)
Inductive Exchange :=
| GetFailed (err : error)                       (* transport error, timeout *)
| Response (StatusCode : Z) (ReadAll : result string).

Inductive Event :=
| HttpGet (timeoutSeconds : Z) (url : string)
| LogStatus (url : string) (StatusCode : Z)
    (* "API: %s responded with status code %d" *)
| Wait (delaySeconds : Z) (n : nat).
    (* retry-go's pause after failed attempt [n], computed by its delay
       policy from the configured [retry.Delay] *)

(** [http.Client{Timeout: 10 * time.Second}] *)
Definition client_Timeout : Z := 10.
(** [retry.Attempts(2)], [retry.Delay(time.Second*2)] *)
Definition retry_Attempts : nat := 2.
Definition retry_Delay : Z := 2.

Section WithServer.

(** The answer of the network to the [n]-th request for [url]. *)
Variable http : string -> nat -> Exchange.

(** The closure handed to [retry.Do]: it writes the captured variable
    [body] and returns an error or [nil]. *)
Definition attempt (url : string) (n : nat) (body : string)
  : list Event * string * option error :=
  match http url n with
  | GetFailed err => ([HttpGet client_Timeout url], body, Some err)
  | Response StatusCode read =>
    if negb (StatusCode =? 200) then
      ([HttpGet client_Timeout url; LogStatus url StatusCode], body,
       Some "unable to reach API"%string)
    else
      match read with
      | Ok b => ([HttpGet client_Timeout url], b, None)
      | Err err => ([HttpGet client_Timeout url], EmptyString, Some err)
      end
  end.

(** [retry.Do] with [left] attempts remaining, [n] already made: run the
    function; stop on [nil]; on an error record it and, unless this was
    the last attempt, wait and go round again. The result is [None] for
    [nil] and the log of errors otherwise. *)
Fixpoint retry_Do (f : nat -> string -> list Event * string * option error)
  (delay : Z) (left : nat) (n : nat) (body : string) (errorLog : list error)
  : list Event * string * option (list error) :=
  match left with
  | O => ([], body, Some errorLog)
  | S left' =>
    match f n body with
    | (evs, body', None) => (evs, body', None)
    | (evs, body', Some err) =>
      match left' with
      | O => (evs, body', Some (errorLog ++ [err]))
      | S _ =>
        let '(evs', body'', r) :=
          retry_Do f delay left' (S n) body' (errorLog ++ [err]) in
        (evs ++ Wait delay n :: evs', body'', r)
      end
    end
  end.

(** An exchange that makes the attempt return an error. *)
Definition failed_exchange (x : Exchange) : Prop :=
  forall body, x <> Response 200 (Ok body).

Inductive Fetched :=
| Body (body : string)            (* (body, nil) *)
| Failed (errs : list error).     (* (nil, err) *)

Definition GetDataFromAPI (url : string) : list Event * Fetched :=
  let '(evs, body, err) :=
    retry_Do (attempt url) retry_Delay retry_Attempts 0 EmptyString [] in
  match err with
  | Some errs => (evs, Failed errs)
  | None => (evs, Body body)
  end.

End WithServer.

Definition requests (t : list Event) : list Event :=
  filter (fun e => match e with HttpGet _ _ => true | _ => false end) t.

(** A Go call either returns or panics. *)
Inductive outcome (A : Type) : Type :=
| Returns (a : A)
| Panics (msg : string).
Arguments Returns {A} a.
Arguments Panics {A} msg.

Section WithJsonPath.

Variables Json Value : Type.
(** [jsonpath.Get] of github.com/PaesslerAG/jsonpath. *)
Variable jsonpath_Get : string -> Json -> result Value.

Definition GetDataFromJSON (jsonObject : Json) (selector : string)
  : outcome (result Value) :=
  match selector with
  | EmptyString => Panics "index out of range [0] with length 0"
  | String c _ =>
    if Ascii.eqb c "["%char
    then Returns (jsonpath_Get ("$" ++ selector) jsonObject)
    else Returns (jsonpath_Get ("$." ++ selector) jsonObject)
  end.

End WithJsonPath.

Arguments GetDataFromJSON {Json Value} jsonpath_Get jsonObject selector.

End Api.

(** ** The password prompt (package utils) *)

Module Password.

(** A Go string is a sequence of bytes; [len] counts bytes. *)
Definition byte_of (a : ascii) : Z := Z.of_N (N_of_ascii a).
Definition len (s : string) : Z := Z.of_nat (String.length s).

Definition RuneError : Z := 65533.     (* U+FFFD *)
Definition MaxLatin1 : Z := 255.

Definition between (lo x hi : Z) : bool := (lo <=? x) && (x <=? hi).
Definition continuation (b : Z) : bool := between 128 b 191.

(** [utf8.DecodeRuneInString]: the rune at the head of a non-empty string
    and its width in bytes. A malformed or truncated encoding yields
    [(RuneError, 1)]. The second byte's accepted range depends on the
    first (no overlong forms, no surrogates, nothing above U+10FFFF). *)
Definition DecodeRuneInString (s : string) : Z * nat :=
  match s with
  | EmptyString => (RuneError, 0%nat)
  | String a0 t0 =>
    let s0 := byte_of a0 in
    if s0 <? 128 then (s0, 1%nat)
    else if (s0 <? 194) || (244 <? s0) then (RuneError, 1%nat)
    else
      match t0 with
      | EmptyString => (RuneError, 1%nat)
      | String a1 t1 =>
        let s1 := byte_of a1 in
        let lo := if s0 =? 224 then 160 else if s0 =? 240 then 144 else 128 in
        let hi := if s0 =? 237 then 159 else if s0 =? 244 then 143 else 191 in
        if negb (between lo s1 hi) then (RuneError, 1%nat)
        else if s0 <? 224 then
          (Z.lor (Z.shiftl (Z.land s0 31) 6) (Z.land s1 63), 2%nat)
        else
          match t1 with
          | EmptyString => (RuneError, 1%nat)
          | String a2 t2 =>
            let s2 := byte_of a2 in
            if negb (continuation s2) then (RuneError, 1%nat)
            else if s0 <? 240 then
              (Z.lor (Z.shiftl (Z.land s0 15) 12)
                 (Z.lor (Z.shiftl (Z.land s1 63) 6) (Z.land s2 63)), 3%nat)
            else
              match t2 with
              | EmptyString => (RuneError, 1%nat)
              | String a3 _ =>
                let s3 := byte_of a3 in
                if negb (continuation s3) then (RuneError, 1%nat)
                else
                  (Z.lor (Z.shiftl (Z.land s0 7) 18)
                     (Z.lor (Z.shiftl (Z.land s1 63) 12)
                        (Z.lor (Z.shiftl (Z.land s2 63) 6) (Z.land s3 63))),
                   4%nat)
              end
          end
      end
  end.

(** [for _, char := range input]: the runes met, in order. After a rune of
    width [w] is decoded the loop resumes [w] bytes on; [skip] counts the
    bytes of the current rune still to be passed over. *)
Fixpoint range_from (skip : nat) (input : string) : list Z :=
  match input with
  | EmptyString => []
  | String _ rest =>
    match skip with
    | S k => range_from k rest
    | O =>
      let '(char, width) := DecodeRuneInString input in
      char :: range_from (Nat.pred width) rest
    end
  end.

Definition range (input : string) : list Z := range_from 0 input.

(** The general categories that package [unicode] tells apart for
    [IsUpper], [IsLower], [IsNumber], [IsPunct] and [IsSymbol]; every code
    point has exactly one. *)
Inductive Category := Upper | Lower | Number | Punct | Symbol | Other.

(** The [properties] array that package [unicode] consults for runes up to
    [MaxLatin1]. *)
Definition properties (r : Z) : Category :=
  if between 48 r 57 then Number                      (* 0-9 *)
  else if between 65 r 90 then Upper                  (* A-Z *)
  else if between 97 r 122 then Lower                 (* a-z *)
  else if (r =? 36) || (r =? 43) || between 60 r 62 || (r =? 94) || (r =? 96)
          || (r =? 124) || (r =? 126) then Symbol     (* $ + < = > ^ ` | ~ *)
  else if between 33 r 47 || between 58 r 64 || between 91 r 95
          || (r =? 123) || (r =? 125) then Punct      (* the other ASCII marks *)
  else if r <? 161 then Other                         (* controls, spaces, DEL *)
  else if (r =? 161) || (r =? 167) || (r =? 171) || (r =? 182) || (r =? 183)
          || (r =? 187) || (r =? 191) then Punct      (* U+00A1 A7 AB B6 B7 BB BF *)
  else if (r =? 178) || (r =? 179) || (r =? 185) || between 188 r 190
       then Number                                    (* superscripts, fractions *)
  else if (r =? 170) || (r =? 173) || (r =? 186)
       then Other                                     (* ordinals, soft hyphen *)
  else if r <? 192 then (if r =? 181 then Lower else Symbol)   (* micro; signs *)
  else if (r =? 215) || (r =? 247) then Symbol        (* times, division *)
  else if r <? 223 then Upper                         (* U+00C0 to U+00DE *)
  else Lower.                                         (* U+00DF to U+00FF *)

Section WithTables.

(** The range tables of package [unicode] for runes above [MaxLatin1]. *)
Variable tables : Z -> Category.

Definition category (r : Z) : Category :=
  if between 0 r MaxLatin1 then properties r else tables r.

Definition same (c d : Category) : bool :=
  match c, d with
  | Upper, Upper | Lower, Lower | Number, Number | Punct, Punct
  | Symbol, Symbol | Other, Other => true
  | _, _ => false
  end.

Definition IsUpper (r : Z) : bool := same (category r) Upper.
Definition IsLower (r : Z) : bool := same (category r) Lower.
Definition IsNumber (r : Z) : bool := same (category r) Number.
Definition IsPunct (r : Z) : bool := same (category r) Punct.
Definition IsSymbol (r : Z) : bool := same (category r) Symbol.

(** The counters [l, u, p, d] of [strongPassword]. They are Go [int]s that
    never exceed the number of bytes of the input, so they cannot wrap. *)
Record Counters := { l : Z; u : Z; p : Z; d : Z }.

(** One turn of the loop: the [switch] takes the first case that holds. *)
Definition count (c : Counters) (char : Z) : Counters :=
  if IsUpper char then {| l := l c; u := u c + 1; p := p c; d := d c |}
  else if IsLower char then {| l := l c + 1; u := u c; p := p c; d := d c |}
  else if IsNumber char then {| l := l c; u := u c; p := p c; d := d c + 1 |}
  else if IsPunct char || IsSymbol char
       then {| l := l c; u := u c; p := p c + 1; d := d c |}
  else c.

Definition strongPassword (input : string) : bool :=
  let zero := {| l := 0; u := 0; p := 0; d := 0 |} in
  let c := if len input >=? 8 then fold_left count (range input) zero else zero in
  ((l c >=? 1) && (u c >=? 1) && (p c >=? 1) && (d c >=? 1))
  && (l c + u c + p c + d c =? len input).

(** The four classes the counters stand for. *)
Definition IsPunctOrSymbol (r : Z) : bool := IsPunct r || IsSymbol r.

Definition classified (r : Z) : bool :=
  IsUpper r || IsLower r || IsNumber r || IsPunctOrSymbol r.

(** A strong password in the words of the specification: at least 8 long,
    with a lowercase letter, an uppercase letter, a digit and a
    punctuation or symbol character, and with no character outside these
    four classes. The characters are the runes the loop meets. *)
Definition strong_by_classes (input : string) : bool :=
  (8 <=? len input)
  && existsb IsLower (range input) && existsb IsUpper (range input)
  && existsb IsNumber (range input) && existsb IsPunctOrSymbol (range input)
  && forallb classified (range input).

(** How many runes of a list satisfy a test. *)
Definition tally (f : Z -> bool) (rs : list Z) : Z :=
  Z.of_nat (List.length (filter f rs)).

(** [validate], the prompt's check. *)
Definition validate (input : string) : option error :=
  if String.eqb input "" || negb (strongPassword input)
  then Some "enter a valid password"%string
  else None.

End WithTables.

(** Strings of single-byte (ASCII) characters. *)
Definition ascii_only (input : string) : bool :=
  forallb (fun a => byte_of a <? 128) (list_ascii_of_string input).

End Password.

(** ** The dispute engine (package cmd)

    The file that implements [HandleDispute], [CheckDisputeForIds],
    [GiveSorted] and their helpers is not among the sources; its test file
    is. The definitions of this module follow section 4.7 of the
    specification, and the cases the test tables fix (which errors end
    the pass and which are only logged) are taken from the tests. *)

Module Dispute.

(** The on-chain proposed block. *)
Record StructsBlock := {
  ProposerId : Z;
  Ids : list Z;
  Medians : list Z;
  Iteration : Z;
  BiggestStake : Z;
  Valid : bool
}.

(** [types.RevealedDataMaps]; a Go map read at an absent key gives the
    zero value. *)
Record RevealedDataMaps := {
  SortedRevealedValues : Z -> list Z;
  VoteWeights : Z -> Z;
  InfluenceSum : Z -> Z
}.

(** The three classes of violation that lead to a dispute, in the order of
    section 4.7.2. *)
Inductive Class := BiggestStakeMismatch | CollectionIdsMismatch | MedianMismatch.

(** The transactions of the dispute family, with their arguments. *)
Inductive Txn :=
| disputeBiggestStakeProposed (epoch : Z) (blockIndex : nat)
| disputeOnOrderOfIds (epoch : Z) (blockIndex : nat) (index0 index1 : nat)
| disputeCollectionIdShouldBePresent (epoch : Z) (blockIndex : nat) (missingId : Z)
| disputeCollectionIdShouldBeAbsent (epoch : Z) (blockIndex : nat) (extraId : Z)
    (positionInBlock : nat)
| giveSorted (epoch : Z) (collectionId : Z) (values : list Z)
| finalizeDispute (epoch : Z) (blockIndex : nat) (collectionIndexInBlock : nat)
| resetDispute (epoch : Z).

Definition class_of (tx : Txn) : option Class :=
  match tx with
  | disputeBiggestStakeProposed _ _ => Some BiggestStakeMismatch
  | disputeOnOrderOfIds _ _ _ _
  | disputeCollectionIdShouldBePresent _ _ _
  | disputeCollectionIdShouldBeAbsent _ _ _ _ => Some CollectionIdsMismatch
  | giveSorted _ _ _ | finalizeDispute _ _ _ => Some MedianMismatch
  | resetDispute _ => None
  end.

(** What submitting a transaction comes to: it went through, or the call
    or the transaction failed with a reason. *)
Inductive Response :=
| Accepted
| Rejected (reason : error).

Definition gasLimitReached : error := "gas limit reached"%string.

Inductive Event :=
| Verify (blockIndex : nat) (c : Class)
    (* the block is compared with the canonical data for class [c] *)
| Submit (tx : Txn) (gasLimit : Z) (r : Response)
| Log (msg : string)
| StoreBountyId.

(** The collaborators: the chain and the local canonical data. [send n tx
    gasLimit] is the answer to the [n]-th transaction submitted during the
    pass. *)
Record Chain := {
  GetSortedProposedBlockIds : result (list Z);
  GetBiggestStakeAndId : result (Z * Z);
  GetLocalMediansData : result (list Z * list Z * RevealedDataMaps);
  Shuffle : list Z -> list Z;
  GetProposedBlock : Z -> result StructsBlock;
  lastVisitedValue : nat -> Z;       (* disputes[epoch][blockIndex] *)
  estimateGas : Txn -> Z;            (* the RPC's estimate *)
  blockGasLimit : result Z;          (* the chain's block gas limit *)
  send : nat -> Txn -> Z -> Response;
  storeBountyId : nat -> option error
}.

(** Modelled from the spec: [utils.IsSorted] as used for the collection
    ids, which are an ordered set: the first adjacent pair that does not
    ascend, with [from] the position of the head. *)
Fixpoint firstDescendingPair (from : nat) (ids : list Z) : option (nat * nat) :=
  match ids with
  | x :: ((y :: _) as rest) =>
    if x <? y then firstDescendingPair (S from) rest else Some (from, S from)
  | _ => None
  end.

Definition contains (ids : list Z) (id : Z) : bool := existsb (Z.eqb id) ids.

(** Modelled from the spec: [utils.IsMissing]: the first element of
    [wanted] that [present] lacks, with its position in [wanted]. *)
Fixpoint firstAbsent (from : nat) (wanted present : list Z) : option (nat * Z) :=
  match wanted with
  | [] => None
  | id :: rest =>
    if contains present id then firstAbsent (S from) rest present
    else Some (from, id)
  end.

(** Modelled from the spec: [utils.IsEqual] on medians: the first index at
    which both lists have a value and the values differ. *)
Fixpoint firstMismatch (from : nat) (proposed canonical : list Z) : option nat :=
  match proposed, canonical with
  | x :: xs, y :: ys => if x =? y then firstMismatch (S from) xs ys else Some from
  | _, _ => None
  end.

(** Modelled from the spec: [utils.IndexOf], the position of a block id
    in the sorted list, which is the block's index on chain. *)
Fixpoint IndexOf (from : nat) (ids : list Z) (id : Z) : option nat :=
  match ids with
  | [] => None
  | x :: rest => if x =? id then Some from else IndexOf (S from) rest id
  end.

(** [core.BatchSize], the initial size of a [giveSorted] batch. *)
Definition BatchSize : positive := 20.

(** How a [giveSorted] stream ends. *)
Inductive Outcome :=
| Completed                 (* every value was accepted *)
| GaveUp                    (* gas limit reached with a batch of one value *)
| Aborted (err : error).    (* any other error *)

Definition batch (sortedValues : list Z) (idx : nat) (batchSize : positive) : list Z :=
  firstn (Pos.to_nat batchSize) (skipn idx sortedValues).

(** Computations that submit transactions: they start with the number of
    transactions sent so far and give the events they caused, the new
    number and a value. *)
Definition M (A : Type) : Type := nat -> list Event * nat * A.

Definition ret {A : Type} (a : A) : M A := fun n => ([], n, a).

Definition bind {A B : Type} (m : M A) (f : A -> M B) : M B :=
  fun n =>
    let '(evs1, n1, a) := m n in
    let '(evs2, n2, b) := f a n1 in
    (evs1 ++ evs2, n2, b).

Definition emit (e : Event) : M unit := fun n => ([e], n, tt).

Declare Scope dispute_scope.
Delimit Scope dispute_scope with dispute.
Notation "x <- m ;; k" := (bind m (fun x => k))
  (at level 61, m at next level, right associativity) : dispute_scope.
Notation "m ;; k" := (bind m (fun _ => k))
  (at level 61, right associativity) : dispute_scope.

Definition events {A : Type} (r : list Event * nat * A) : list Event := fst (fst r).
Definition sent {A : Type} (r : list Event * nat * A) : nat := snd (fst r).
Definition value {A : Type} (r : list Event * nat * A) : A := snd r.

(** The transactions in a trace, the classes they belong to and the
    classes a trace verified. *)
Definition submissions (t : list Event) : list Txn :=
  flat_map (fun e => match e with Submit tx _ _ => [tx] | _ => [] end) t.

Definition verified (t : list Event) : list Class :=
  flat_map (fun e => match e with Verify _ c => [c] | _ => [] end) t.

(** The values of the [giveSorted] batches that were accepted. *)
Definition accepted_values (t : list Event) : list Z :=
  flat_map (fun e => match e with
                     | Submit (giveSorted _ _ values) _ Accepted => values
                     | _ => []
                     end) t.

(** The two id disputes whose gas limit must be increased. *)
Definition needs_gas_increase (tx : Txn) : bool :=
  match tx with
  | disputeCollectionIdShouldBePresent _ _ _
  | disputeCollectionIdShouldBeAbsent _ _ _ _ => true
  | _ => false
  end.

(** The transactions that dispute a block or reset the dispute, as
    opposed to the [giveSorted] batches that prepare a median dispute. *)
Definition is_dispute (tx : Txn) : bool :=
  match tx with
  | giveSorted _ _ _ => false
  | _ => true
  end.

(** The events that come before a dispute is submitted: verifications
    and [giveSorted] batches. *)
Definition is_preparation (e : Event) : bool :=
  match e with
  | Verify _ _ => true
  | Submit tx _ _ => negb (is_dispute tx)
  | _ => false
  end.

(** How the work on one block ends: with nothing more, with a log line,
    or with a dispute transaction that is either accepted, and the bounty
    id stored, or rejected, and the reason logged. *)
Inductive Closing : list Event -> Prop :=
| closing_none : Closing []
| closing_log (msg : string) : Closing [Log msg]
| closing_accepted (tx : Txn) (gasLimit : Z) :
    Closing [Submit tx gasLimit Accepted; StoreBountyId]
| closing_accepted_log (tx : Txn) (gasLimit : Z) (err : error) :
    Closing [Submit tx gasLimit Accepted; StoreBountyId; Log err]
| closing_rejected (tx : Txn) (gasLimit : Z) (reason : error) :
    Closing [Submit tx gasLimit (Rejected reason); Log reason].

(** Ordered sets of ids: position [i] descends when the id after it is
    not greater. *)
Definition descends_at (ids : list Z) (i : nat) : Prop :=
  exists x y, nth_error ids i = Some x /\ nth_error ids (S i) = Some y /\ y <= x.

Definition first_descent (ids : list Z) (i : nat) : Prop :=
  descends_at ids i /\ forall k, (k < i)%nat -> ~ descends_at ids k.

Definition StrictlyAscending (ids : list Z) : Prop :=
  forall i, ~ descends_at ids i.

(** The first element of [wanted] that [present] lacks is [id], at
    position [pos]. *)
Definition first_lacking (wanted present : list Z) (pos : nat) (id : Z) : Prop :=
  nth_error wanted pos = Some id /\ ~ In id present
  /\ forall k x, (k < pos)%nat -> nth_error wanted k = Some x -> In x present.


Section WithChain.

Variable chain : Chain.
Variable epoch : Z.
(** The configured gas multiplier (2 by default). *)
Variable gasMultiplier : Z.

(** Modelled from the spec: [GiveSorted] (section 4.7.3), from the state
    [idx] values accepted, current batch size [batchSize], [n]
    transactions sent and [acc] the events so far. Each turn submits the
    next [batchSize] values after the accepted ones; acceptance moves
    [idx] on, "gas limit reached" halves the batch size and goes round
    again from the same [idx], and gives up when the size is already 1. *)
Equations? giveSortedFrom (collectionId : Z) (sortedValues : list Z)
  (idx : nat) (batchSize : positive) (n : nat) (acc : list Event)
  : list Event * nat * Outcome
  by wf ((List.length sortedValues - idx) + Pos.to_nat batchSize)%nat lt :=
giveSortedFrom collectionId sortedValues idx batchSize n acc
  with le_lt_dec (List.length sortedValues) idx := {
  | left _ := (acc, n, Completed);
  | right _
    with send chain n (giveSorted epoch collectionId (batch sortedValues idx batchSize))
           (estimateGas chain
              (giveSorted epoch collectionId (batch sortedValues idx batchSize))) := {
    | Accepted :=
      giveSortedFrom collectionId sortedValues
        (idx + List.length (batch sortedValues idx batchSize)) batchSize (S n)
        (acc ++ [Submit (giveSorted epoch collectionId (batch sortedValues idx batchSize))
                   (estimateGas chain
                      (giveSorted epoch collectionId (batch sortedValues idx batchSize)))
                   Accepted]);
    | Rejected reason with String.eqb reason gasLimitReached := {
      | false :=
        (acc ++ [Submit (giveSorted epoch collectionId (batch sortedValues idx batchSize))
                   (estimateGas chain
                      (giveSorted epoch collectionId (batch sortedValues idx batchSize)))
                   (Rejected reason)],
         S n, Aborted reason);
      | true with batchSize := {
        | xH :=
          (acc ++ [Submit (giveSorted epoch collectionId (batch sortedValues idx 1))
                     (estimateGas chain
                        (giveSorted epoch collectionId (batch sortedValues idx 1)))
                     (Rejected reason)],
           S n, GaveUp);
        | xO half :=
          giveSortedFrom collectionId sortedValues idx half (S n)
            (acc ++ [Submit (giveSorted epoch collectionId (batch sortedValues idx (xO half)))
                       (estimateGas chain
                          (giveSorted epoch collectionId (batch sortedValues idx (xO half))))
                       (Rejected reason)]);
        | xI half :=
          giveSortedFrom collectionId sortedValues idx half (S n)
            (acc ++ [Submit (giveSorted epoch collectionId (batch sortedValues idx (xI half)))
                       (estimateGas chain
                          (giveSorted epoch collectionId (batch sortedValues idx (xI half))))
                       (Rejected reason)]) } } } }.
Proof.
  - unfold batch. rewrite length_firstn, length_skipn.
    pose proof (Pos2Nat.is_pos batchSize). lia.
  - rewrite Pos2Nat.inj_xI. lia.
  - rewrite Pos2Nat.inj_xO. pose proof (Pos2Nat.is_pos half). lia.
Qed.

(** The transaction that carries the batch at [idx], the chain's answer
    when it is the [n]-th transaction, and the event of its submission. *)
Definition batchTxn (collectionId : Z) (sortedValues : list Z) (idx : nat)
  (batchSize : positive) : Txn :=
  giveSorted epoch collectionId (batch sortedValues idx batchSize).

Definition batchResponse (collectionId : Z) (sortedValues : list Z) (idx : nat)
  (batchSize : positive) (n : nat) : Response :=
  send chain n (batchTxn collectionId sortedValues idx batchSize)
    (estimateGas chain (batchTxn collectionId sortedValues idx batchSize)).

Definition batchSubmission (collectionId : Z) (sortedValues : list Z) (idx : nat)
  (batchSize : positive) (n : nat) : Event :=
  Submit (batchTxn collectionId sortedValues idx batchSize)
    (estimateGas chain (batchTxn collectionId sortedValues idx batchSize))
    (batchResponse collectionId sortedValues idx batchSize n).

(** A [giveSorted] submission for the collection with at least one and at
    most [most] values. *)
Definition is_batch (collectionId : Z) (most : nat) (e : Event) : Prop :=
  exists values gasLimit r,
    e = Submit (giveSorted epoch collectionId values) gasLimit r
    /\ (1 <= List.length values <= most)%nat.

Local Open Scope dispute_scope.

Definition submit (tx : Txn) (gasLimit : Z) : M Response :=
  fun n =>
    ([Submit tx gasLimit (send chain n tx gasLimit)], S n, send chain n tx gasLimit).

(** Modelled from the spec: [GiveSorted], started on a value list. *)
Definition GiveSorted (collectionId : Z) (sortedValues : list Z) : M Outcome :=
  fun n => giveSortedFrom collectionId sortedValues 0 BatchSize n [].

(** Modelled from the spec: [utils.IncreaseGasLimitValue] (section 4.7.4):
    the estimate times the configured factor, capped at the chain's block
    gas limit; it fails when that limit cannot be read. *)
Definition IncreaseGasLimitValue (gasLimit : Z) : result Z :=
  match blockGasLimit chain with
  | Err err => Err err
  | Ok cap => Ok (Z.min (gasLimit * gasMultiplier) cap)
  end.

(** Modelled from the spec: the call of one of the three id disputes of
    [blockManagerUtils], which hands back [(tx, nil)] or [(nil, err)]. *)
Definition disputeIds (tx : Txn) (gasLimit : Z) : M (result (option Txn)) :=
  r <- submit tx gasLimit ;;
  ret (match r with
       | Accepted => Ok (Some tx)
       | Rejected reason => Err reason
       end).

(** Modelled from the spec: the same after the mandatory increase of the
    gas limit (section 4.7.4, rows 3 and 5 of TestCheckDisputeForIds). *)
Definition disputeIdsWithIncreasedGas (tx : Txn) : M (result (option Txn)) :=
  match IncreaseGasLimitValue (estimateGas chain tx) with
  | Err err => ret (Err err)
  | Ok incrementedGasLimit => disputeIds tx incrementedGasLimit
  end.

(** Modelled from the spec: [CheckDisputeForIds] (section 4.7.2, class 2).
    [(nil, nil)] is [Ok None]. *)
Definition CheckDisputeForIds (blockIndex : nat)
  (idsInProposedBlock revealedCollectionIds : list Z) : M (result (option Txn)) :=
  match firstDescendingPair 0 idsInProposedBlock with
  | Some (index0, index1) =>
    disputeIds (disputeOnOrderOfIds epoch blockIndex index0 index1)
      (estimateGas chain (disputeOnOrderOfIds epoch blockIndex index0 index1))
  | None =>
    match firstAbsent 0 revealedCollectionIds idsInProposedBlock with
    | Some (_, missingCollectionId) =>
      disputeIdsWithIncreasedGas
        (disputeCollectionIdShouldBePresent epoch blockIndex missingCollectionId)
    | None =>
      match firstAbsent 0 idsInProposedBlock revealedCollectionIds with
      | Some (positionOfPresentValue, presentCollectionId) =>
        disputeIdsWithIncreasedGas
          (disputeCollectionIdShouldBeAbsent epoch blockIndex presentCollectionId
             positionOfPresentValue)
      | None => ret (Ok None)
      end
    end
  end.

(** Modelled from the spec: the RecordBounty step of section 4.7.5. After
    a dispute went through the bounty id is stored; an error of
    [StoreBountyId] is only logged (rows 14 and 15 of TestHandleDispute). *)
Definition recordBounty : M unit :=
  fun n =>
    match storeBountyId chain n with
    | None => ([StoreBountyId], n, tt)
    | Some err => ([StoreBountyId; Log err], n, tt)
    end.

(** Modelled from the spec: section 4.7.6. A failed dispute transaction is
    logged and the pass goes on (row 8 of TestHandleDispute). *)
Definition settle (r : Response) : M unit :=
  match r with
  | Accepted => recordBounty
  | Rejected reason => emit (Log reason)
  end.

(** Modelled from the spec: [Dispute], the median dispute: stream the
    revealed values of the collection, then finalize. *)
Definition Dispute (blockIndex : nat) (collectionIndexInBlock : nat)
  (revealedCollectionIds : list Z) (maps : RevealedDataMaps) : M unit :=
  let collectionId := nth collectionIndexInBlock revealedCollectionIds 0 in
  o <- GiveSorted collectionId (SortedRevealedValues maps collectionId) ;;
  match o with
  | Completed =>
    r <- submit (finalizeDispute epoch blockIndex collectionIndexInBlock)
           (estimateGas chain (finalizeDispute epoch blockIndex collectionIndexInBlock)) ;;
    settle r
  | GaveUp => emit (Log gasLimitReached)
  | Aborted err => emit (Log err)
  end.

(** Modelled from the spec: the body of the loop of [HandleDispute]
    (sections 4.7.2 and 4.7.5): the three verifications of one valid, not
    yet disputed block, in order; the first violation is disputed and ends
    the work on the block. *)
Definition verifyBlock (blockIndex : nat) (proposedBlock : StructsBlock)
  (biggestStake : Z) (medians revealedCollectionIds : list Z)
  (maps : RevealedDataMaps) : M unit :=
  emit (Verify blockIndex BiggestStakeMismatch) ;;
  if negb (BiggestStake proposedBlock =? biggestStake) then
    r <- submit (disputeBiggestStakeProposed epoch blockIndex)
           (estimateGas chain (disputeBiggestStakeProposed epoch blockIndex)) ;;
    settle r
  else
    emit (Verify blockIndex CollectionIdsMismatch) ;;
    idDispute <- CheckDisputeForIds blockIndex (Ids proposedBlock) revealedCollectionIds ;;
    match idDispute with
    | Err err => emit (Log err)
    | Ok (Some _) => recordBounty
    | Ok None =>
      emit (Verify blockIndex MedianMismatch) ;;
      match firstMismatch 0 (Medians proposedBlock) medians with
      | Some mismatchIndex => Dispute blockIndex mismatchIndex revealedCollectionIds maps
      | None => ret tt
      end
    end.

(** Modelled from the spec: one turn of the loop of [HandleDispute] over
    the shuffled block ids. A block that cannot be read or is not in the
    sorted list is logged and passed over (rows 4 and 17 of
    TestHandleDispute); a block already disputed or invalid is passed
    over silently (section 4.7.2). *)
Definition visit (sortedProposedBlockIds : list Z) (biggestStake : Z)
  (medians revealedCollectionIds : list Z) (maps : RevealedDataMaps)
  (blockId : Z) : M unit :=
  match GetProposedBlock chain blockId with
  | Err err => emit (Log err)
  | Ok proposedBlock =>
    match IndexOf 0 sortedProposedBlockIds blockId with
    | None => emit (Log "Block is not present in SortedProposedBlockIds")
    | Some blockIndex =>
      if negb (lastVisitedValue chain blockIndex =? 0) then ret tt
      else if negb (Valid proposedBlock) then ret tt
      else verifyBlock blockIndex proposedBlock biggestStake medians
             revealedCollectionIds maps
    end
  end.

Fixpoint visitAll (sortedProposedBlockIds : list Z) (biggestStake : Z)
  (medians revealedCollectionIds : list Z) (maps : RevealedDataMaps)
  (blockIds : list Z) : M unit :=
  match blockIds with
  | [] => ret tt
  | blockId :: rest =>
    visit sortedProposedBlockIds biggestStake medians revealedCollectionIds maps blockId ;;
    visitAll sortedProposedBlockIds biggestStake medians revealedCollectionIds maps rest
  end.

(** Modelled from the spec: [ResetDispute], the Reset step of section
    4.7.5. *)
Definition ResetDispute : M unit :=
  r <- submit (resetDispute epoch) (estimateGas chain (resetDispute epoch)) ;;
  match r with
  | Accepted => ret tt
  | Rejected reason => emit (Log reason)
  end.

(** Modelled from the spec: [HandleDispute] (sections 4.7.1, 4.7.5 and
    4.7.6): an error while the canonical data is computed ends the pass
    with that error; then every block is visited in shuffled order and the
    dispute state is reset. *)
Definition HandleDispute : list Event * option error :=
  match GetSortedProposedBlockIds chain with
  | Err err => ([Log err], Some err)
  | Ok sortedProposedBlockIds =>
    match GetBiggestStakeAndId chain with
    | Err err => ([], Some err)
    | Ok (biggestStake, _) =>
      match GetLocalMediansData chain with
      | Err err => ([], Some err)
      | Ok (medians, revealedCollectionIds, maps) =>
        (events
           ((visitAll sortedProposedBlockIds biggestStake medians
               revealedCollectionIds maps (Shuffle chain sortedProposedBlockIds) ;;
             ResetDispute) 0%nat),
         None)
      end
    end
  end.

End WithChain.

End Dispute.

(** ** utils/api.go: the XHTML fetcher and the errors of an attempt *)

Module Xhtml.

Section WithCollector.

(** What [c.Visit(url)] comes to for a collector with one [OnXML] callback
    on [selector]: the texts of the elements the callback was called on,
    in the order of the calls, and the error [Visit] returns. *)
Variable Visit : string -> string -> list string * option error.

(** The callback overwrites [priceData] with the text of each element it
    is called on. *)
Definition GetDataFromXHTML (url selector : string) : string * option error :=
  let '(texts, err) := Visit url selector in
  let priceData := fold_left (fun _ text => text) texts EmptyString in
  match err with
  | Some e => (EmptyString, Some e)
  | None => (priceData, None)
  end.

End WithCollector.

End Xhtml.

(** The error with which the closure of [GetDataFromAPI] answers an
    exchange, [None] when it returns [nil]. *)
Definition exchange_error (x : Api.Exchange) : option error :=
  match x with
  | Api.GetFailed err => Some err
  | Api.Response StatusCode read =>
    if StatusCode =? 200
    then match read with Ok _ => None | Err err => Some err end
    else Some "unable to reach API"%string
  end.

(** The rune that the loop of [strongPassword] meets at a byte that is a
    character of its own: the byte when it is ASCII, U+FFFD otherwise. *)
Definition rune_of_byte (a : ascii) : Z :=
  if Password.byte_of a <? 128 then Password.byte_of a else Password.RuneError.

(** ** The helpers of the dispute tests *)

Module DummyIds.

(** [getDummyIds]: the loop [for i := uint16(1); i <= numOfIds; i++]
    appending [i], with [fuel] bounding the number of tests of the loop
    condition; [None] when the fuel runs out before the loop is left. *)
Fixpoint getDummyIds_from (fuel : nat) (numOfIds i : Z) (result : list Z)
  : option (list Z) :=
  match fuel with
  | O => None
  | S fuel' =>
    if i <=? numOfIds
    then getDummyIds_from fuel' numOfIds ((i + 1) mod 2 ^ 16) (result ++ [i])
    else Some result
  end.

Definition getDummyIds (fuel : nat) (numOfIds : Z) : option (list Z) :=
  getDummyIds_from fuel numOfIds 1 [].

(** [getUint32DummyIds]: the loop [for i := uint32(1); i < numOfIds; i++]. *)
Fixpoint getUint32DummyIds_from (fuel : nat) (numOfIds i : Z) (result : list Z)
  : option (list Z) :=
  match fuel with
  | O => None
  | S fuel' =>
    if i <? numOfIds
    then getUint32DummyIds_from fuel' numOfIds ((i + 1) mod 2 ^ 32) (result ++ [i])
    else Some result
  end.

Definition getUint32DummyIds (fuel : nat) (numOfIds : Z) : option (list Z) :=
  getUint32DummyIds_from fuel numOfIds 1 [].

(** The numbers [first, first + 1, ...], [count] of them. *)
Definition upwards (first : Z) (count : nat) : list Z :=
  map (fun k => first + Z.of_nat k) (seq 0 count).

End DummyIds.

(** * Concrete inputs

    Small environments on which the functions above are run. *)

(** A chain whose transactions are numbers that are their own hash: the
    epoch is [epoch], every bounty has the lock [lock] and redeeming gives
    transaction 99. *)
Definition chain_at (epoch : Z) (lock : ClaimBounty.BountyLock) : ClaimBounty.Chain Z :=
  {| ClaimBounty.GetEpoch := Ok epoch;
     ClaimBounty.GetBountyLock := fun _ => Ok lock;
     ClaimBounty.RedeemBounty := fun _ => Ok 99;
     ClaimBounty.Hash := fun tx => tx |}.

Definition lock_of (redeemAfter amount : Z) : ClaimBounty.BountyLock :=
  {| ClaimBounty.RedeemAfter := redeemAfter;
     ClaimBounty.BountyHunter := "0xdead";
     ClaimBounty.Amount := amount |}.

Definition bounty7 : ClaimBounty.RedeemBountyInput :=
  {| ClaimBounty.Address := "0x5a0b"; ClaimBounty.Password := "";
     ClaimBounty.BountyId := 7 |}.

(** A server that answers every request with status 201 and a body. *)
Definition server_201 (url : string) (n : nat) : Api.Exchange :=
  Api.Response 201 (Ok "42"%string).

(** "Aa1!aaa" followed by the two bytes of U+00C9, the capital E with an
    acute accent: nine bytes, eight characters. *)
Definition password_with_accent : string :=
  ("Aa1!aaa" ++ String (ascii_of_nat 195) (String (ascii_of_nat 137) EmptyString))%string.

(** Four proposed blocks, after scenarios 1, 2 and 5 of the specification:
    block 45 proposes a wrong biggest stake, block 65 has its ids out of
    order, block 23 proposes a wrong median for collection 1 and block 64
    is right. The chain rejects the biggest-stake dispute as already
    disputed and has room for two values in a giveSorted batch. *)
Definition block_with (ids medians : list Z) (biggestStake : Z) : Dispute.StructsBlock :=
  {| Dispute.ProposerId := 1; Dispute.Ids := ids; Dispute.Medians := medians;
     Dispute.Iteration := 0; Dispute.BiggestStake := biggestStake;
     Dispute.Valid := true |}.

Definition revealed_maps : Dispute.RevealedDataMaps :=
  {| Dispute.SortedRevealedValues := fun cid => if cid =? 1 then [100; 200; 300] else [];
     Dispute.VoteWeights := fun v => if v =? 200 then 2 else 1;
     Dispute.InfluenceSum := fun _ => 4 |}.

Definition dispute_chain : Dispute.Chain :=
  {| Dispute.GetSortedProposedBlockIds := Ok [45; 65; 23; 64];
     Dispute.GetBiggestStakeAndId := Ok (5356, 2);
     Dispute.GetLocalMediansData := Ok ([200; 7; 9], [1; 2; 3], revealed_maps);
     Dispute.Shuffle := @rev Z;
     Dispute.GetProposedBlock := fun id =>
       if id =? 45 then Ok (block_with [1; 2; 3] [200; 7; 9] 4356)
       else if id =? 65 then Ok (block_with [1; 3; 2] [200; 7; 9] 5356)
       else if id =? 23 then Ok (block_with [1; 2; 3] [250; 7; 9] 5356)
       else if id =? 64 then Ok (block_with [1; 2; 3] [200; 7; 9] 5356)
       else Err "no such block"%string;
     Dispute.lastVisitedValue := fun _ => 0;
     Dispute.estimateGas := fun _ => 1000;
     Dispute.blockGasLimit := Ok 30000000;
     Dispute.send := fun _ tx _ =>
       match tx with
       | Dispute.disputeBiggestStakeProposed _ _ =>
         Dispute.Rejected "Block already has been disputed"%string
       | Dispute.giveSorted _ _ values =>
         if (2 <? List.length values)%nat
         then Dispute.Rejected Dispute.gasLimitReached
         else Dispute.Accepted
       | _ => Dispute.Accepted
       end;
     Dispute.storeBountyId := fun _ => None |}.

(** The same chain when its block gas limit cannot be read. *)
Definition chain_without_gas_limit : Dispute.Chain :=
  {| Dispute.GetSortedProposedBlockIds := Dispute.GetSortedProposedBlockIds dispute_chain;
     Dispute.GetBiggestStakeAndId := Dispute.GetBiggestStakeAndId dispute_chain;
     Dispute.GetLocalMediansData := Dispute.GetLocalMediansData dispute_chain;
     Dispute.Shuffle := Dispute.Shuffle dispute_chain;
     Dispute.GetProposedBlock := Dispute.GetProposedBlock dispute_chain;
     Dispute.lastVisitedValue := Dispute.lastVisitedValue dispute_chain;
     Dispute.estimateGas := Dispute.estimateGas dispute_chain;
     Dispute.blockGasLimit := Err "error in incremented gas limit"%string;
     Dispute.send := Dispute.send dispute_chain;
     Dispute.storeBountyId := Dispute.storeBountyId dispute_chain |}.

(** * Properties *)

(** ** Machine integers *)

(** The [int32] difference of two numbers is their difference whenever
    that fits 32 bits, whatever the operands. *)
Lemma int32_sub (a b : Z) :
  - 2 ^ 31 <= a - b < 2 ^ 31 -> int32 (int32 a - int32 b) = a - b.
Proof.
  intros H. unfold int32.
  replace ((a + 2 ^ 31) mod 2 ^ 32 - 2 ^ 31 - ((b + 2 ^ 31) mod 2 ^ 32 - 2 ^ 31) + 2 ^ 31)
    with ((a + 2 ^ 31) mod 2 ^ 32 - (b + 2 ^ 31) mod 2 ^ 32 + 2 ^ 31) by lia.
  rewrite Zplus_mod, <- Zminus_mod, <- Zplus_mod.
  replace (a + 2 ^ 31 - (b + 2 ^ 31) + 2 ^ 31) with (a - b + 2 ^ 31) by lia.
  rewrite Z.mod_small; lia.
Qed.

(** ** ClaimBounty *)

Section ClaimBountyFacts.

Import ClaimBounty.

Variable Transaction : Type.
Variable EpochLength : Z.
Variable c : Chain Transaction.
Variable input : RedeemBountyInput.

Let run := ClaimBounty EpochLength c input.

(** The guard on the amount comes before the comparison of epochs. *)
Lemma ClaimBounty_amount_guard (epoch : Z) (lock : BountyLock) :
  GetEpoch c = Ok epoch ->
  GetBountyLock c (BountyId input) = Ok lock ->
  Amount lock = 0 ->
  run = ([LogError "bounty amount is 0"], (NilHash, Some "bounty amount is 0"%string)).
Proof.
  intros He Hl Ha. unfold run, ClaimBounty. rewrite He, Hl, Ha. reflexivity.
Qed.

Lemma ClaimBounty_waitFor (epoch : Z) (lock : BountyLock) :
  - 2 ^ 31 <= RedeemAfter lock - epoch < 2 ^ 31 ->
  int32 (int32 (RedeemAfter lock) - int32 epoch) = RedeemAfter lock - epoch.
Proof. apply int32_sub. Qed.

(** C5, as amended. For a bounty with a nonzero amount: when the lock's
    redeemAfter exceeds the current epoch (by less than 2^31) ClaimBounty
    submits no transaction, reports the number of epochs to wait and
    returns the nil hash with a nil error; when redeemAfter is at most
    the current epoch (by at most 2^31) it submits redeemBounty for the
    bounty id, once, and returns the hash of the transaction when the
    submission succeeds and the nil hash with the error when it fails. *)
Theorem ClaimBounty_lock_period (epoch : Z) (lock : BountyLock) :
  GetEpoch c = Ok epoch ->
  GetBountyLock c (BountyId input) = Ok lock ->
  Amount lock <> 0 ->
  (0 < RedeemAfter lock - epoch < 2 ^ 31 ->
     submitted (fst run) = []
     /\ reports_wait (fst run) (RedeemAfter lock - epoch)
     /\ snd run = (NilHash, None))
  /\ (- 2 ^ 31 <= RedeemAfter lock - epoch <= 0 ->
     submitted (fst run) = [CallRedeemBounty (BountyId input)]
     /\ (forall tx, RedeemBounty c (BountyId input) = Ok tx ->
           snd run = (Hash c tx, None))
     /\ (forall err, RedeemBounty c (BountyId input) = Err err ->
           snd run = (NilHash, Some err))).
Proof.
  intros He Hl Ha.
  assert (Hz : (Amount lock =? 0) = false) by (apply Z.eqb_neq; exact Ha).
  split; intros Hd.
  - unfold run, ClaimBounty. rewrite He, Hl, Hz. cbv zeta.
    rewrite ClaimBounty_waitFor by lia.
    destruct (Z.gtb_spec (RedeemAfter lock - epoch) 0) as [_ | Hle]; [| lia].
    repeat split. eexists; eexists. cbn. right; right; left. reflexivity.
  - unfold run, ClaimBounty. rewrite He, Hl, Hz. cbv zeta.
    rewrite ClaimBounty_waitFor by lia.
    destruct (Z.gtb_spec (RedeemAfter lock - epoch) 0) as [Hgt | _]; [lia |].
    destruct (RedeemBounty c (BountyId input)) as [tx | err]; cbn;
      repeat split; intros ? [= <-]; reflexivity.
Qed.

(** C6, as amended. A bounty whose lock amount is zero is not redeemed:
    ClaimBounty submits no transaction, logs the error "bounty amount is
    0" and returns it with the nil hash. *)
Theorem ClaimBounty_zero_amount (epoch : Z) (lock : BountyLock) :
  GetEpoch c = Ok epoch ->
  GetBountyLock c (BountyId input) = Ok lock ->
  Amount lock = 0 ->
  submitted (fst run) = []
  /\ In (LogError "bounty amount is 0") (fst run)
  /\ snd run = (NilHash, Some "bounty amount is 0"%string).
Proof.
  intros He Hl Ha. rewrite (ClaimBounty_amount_guard epoch lock He Hl Ha).
  cbn. auto.
Qed.

End ClaimBountyFacts.


Lemma ClaimBounty_lock_period_witness :
  (ClaimBounty.submitted
     (fst (ClaimBounty.ClaimBounty 300 (chain_at 6 (lock_of 7 1)) bounty7)) = []
   /\ ClaimBounty.reports_wait
        (fst (ClaimBounty.ClaimBounty 300 (chain_at 6 (lock_of 7 1)) bounty7)) (7 - 6)
   /\ snd (ClaimBounty.ClaimBounty 300 (chain_at 6 (lock_of 7 1)) bounty7)
      = (ClaimBounty.NilHash, None))
  /\ (ClaimBounty.submitted
        (fst (ClaimBounty.ClaimBounty 300 (chain_at 7 (lock_of 7 1)) bounty7))
      = [ClaimBounty.CallRedeemBounty 7]
      /\ snd (ClaimBounty.ClaimBounty 300 (chain_at 7 (lock_of 7 1)) bounty7)
         = (99, None)).
Proof.
  split.
  - apply (ClaimBounty_lock_period Z 300 (chain_at 6 (lock_of 7 1)) bounty7 6 (lock_of 7 1));
      [reflexivity | reflexivity | cbn; lia | cbn; lia].
  - destruct (ClaimBounty_lock_period Z 300 (chain_at 7 (lock_of 7 1)) bounty7 7 (lock_of 7 1))
      as [_ H]; [reflexivity | reflexivity | cbn; lia |].
    destruct H as (Hs & Hok & _); [cbn; lia |].
    split; [exact Hs | apply Hok; reflexivity].
Defined.

(** C5 as stated fails in two ways. A bounty with amount zero whose lock
    is not over yet is answered with an error, not with a nil error; and
    a redeemAfter that is 2^31 or more epochs ahead is taken for a lock
    that is over, because the difference is computed in int32. *)
Lemma ClaimBounty_locked_bounty_not_always_waiting :
  (7 > 5
   /\ snd (ClaimBounty.ClaimBounty 300 (chain_at 5 (lock_of 7 0)) bounty7)
      = (ClaimBounty.NilHash, Some "bounty amount is 0"%string)
   /\ snd (ClaimBounty.ClaimBounty 300 (chain_at 5 (lock_of 7 0)) bounty7)
      <> (ClaimBounty.NilHash, None))
  /\ (2 ^ 31 > 0
      /\ ClaimBounty.submitted
           (fst (ClaimBounty.ClaimBounty 300 (chain_at 0 (lock_of (2 ^ 31) 1)) bounty7))
         = [ClaimBounty.CallRedeemBounty 7]
      /\ ClaimBounty.submitted
           (fst (ClaimBounty.ClaimBounty 300 (chain_at 0 (lock_of (2 ^ 31) 1)) bounty7))
         <> []).
Proof.
  repeat split; try reflexivity; try discriminate; vm_compute; discriminate.
Qed.

Lemma ClaimBounty_zero_amount_witness :
  ClaimBounty.submitted
    (fst (ClaimBounty.ClaimBounty 300 (chain_at 9 (lock_of 7 0)) bounty7)) = []
  /\ In (ClaimBounty.LogError "bounty amount is 0")
       (fst (ClaimBounty.ClaimBounty 300 (chain_at 9 (lock_of 7 0)) bounty7))
  /\ snd (ClaimBounty.ClaimBounty 300 (chain_at 9 (lock_of 7 0)) bounty7)
     = (ClaimBounty.NilHash, Some "bounty amount is 0"%string).
Proof.
  apply (ClaimBounty_zero_amount Z 300 (chain_at 9 (lock_of 7 0)) bounty7 9 (lock_of 7 0));
    reflexivity.
Defined.

(** C6 as stated fails: a bounty with amount zero is not dropped
    silently, ClaimBounty reports the error "bounty amount is 0". *)
Lemma zero_amount_bounty_reports_error :
  ClaimBounty.Amount (lock_of 7 0) = 0
  /\ snd (snd (ClaimBounty.ClaimBounty 300 (chain_at 9 (lock_of 7 0)) bounty7))
     = Some "bounty amount is 0"%string
  /\ snd (snd (ClaimBounty.ClaimBounty 300 (chain_at 9 (lock_of 7 0)) bounty7)) <> None.
Proof.
  repeat split; discriminate.
Qed.

(** ** GetDataFromAPI and GetDataFromJSON *)

Section ApiFacts.

Import Api.

Variable http : string -> nat -> Exchange.
Variable url : string.

Lemma attempt_ok (n : nat) (old body : string) :
  http url n = Response 200 (Ok body) ->
  attempt http url n old = ([HttpGet client_Timeout url], body, None).
Proof.
  intros H. unfold attempt. rewrite H. reflexivity.
Qed.

Lemma attempt_failed (n : nat) (old : string) :
  failed_exchange (http url n) ->
  exists evs body err,
    attempt http url n old = (evs, body, Some err)
    /\ requests evs = [HttpGet client_Timeout url]
    /\ (forall d k, ~ In (Wait d k) evs).
Proof.
  intros H. unfold attempt. destruct (http url n) as [err | code [b | err]].
  - do 3 eexists. split; [reflexivity |]. split; [reflexivity |].
    intros d k [E | []]; discriminate.
  - destruct (Z.eqb_spec code 200) as [-> | Hne].
    + exfalso. apply (H b). reflexivity.
    + cbn. do 3 eexists. split; [reflexivity |]. split; [reflexivity |].
      intros d k [E | [E | []]]; discriminate.
  - destruct (Z.eqb_spec code 200) as [-> | Hne]; cbn;
      do 3 eexists; (split; [reflexivity |]); (split; [reflexivity |]).
    + intros d k [E | []]; discriminate.
    + intros d k [E | [E | []]]; discriminate.
Qed.

Lemma exchange_dec (x : Exchange) :
  (exists body, x = Response 200 (Ok body)) \/ failed_exchange x.
Proof.
  destruct x as [err | code [b | err]].
  - right. intros body. discriminate.
  - destruct (Z.eq_dec code 200) as [-> | Hne].
    + left. eexists. reflexivity.
    + right. intros body [= E]. contradiction.
  - right. intros body. discriminate.
Qed.

(** C8, as amended. For every URL GetDataFromAPI sends GET requests with
    a 10-second timeout, one or two of them, the second only after the
    first failed and after the retry pause configured as 2 seconds. It
    returns the body of the first of these attempts that is answered with
    status 200 and whose body is read, and it fails with an error exactly
    when both attempts fail, by a transport error, a status other than
    200 or an unreadable body. *)
Theorem GetDataFromAPI_retries :
  let run := GetDataFromAPI http url in
  (forall e, In e (requests (fst run)) -> e = HttpGet 10 url)
  /\ (1 <= List.length (requests (fst run)) <= 2)%nat
  /\ (forall d n, In (Wait d n) (fst run) ->
        d = 2 /\ n = 0%nat /\ failed_exchange (http url 0)
        /\ List.length (requests (fst run)) = 2%nat)
  /\ (forall body,
        snd run = Body body <->
        http url 0 = Response 200 (Ok body)
        \/ (failed_exchange (http url 0) /\ http url 1 = Response 200 (Ok body)))
  /\ ((exists errs, snd run = Failed errs) <->
      failed_exchange (http url 0) /\ failed_exchange (http url 1)).
Proof.
  cbv zeta. unfold GetDataFromAPI, retry_Attempts, retry_Delay. cbn [retry_Do].
  destruct (exchange_dec (http url 0)) as [[b0 H0] | F0].
  - rewrite (attempt_ok 0 _ b0 H0). cbn.
    split; [intros e [<- | []]; reflexivity |].
    split; [lia |].
    split; [intros d n [E | []]; discriminate |].
    split.
    + intros body. split.
      * intros [= <-]. left. exact H0.
      * intros [H | [F _]].
        -- rewrite H0 in H. injection H as <-. reflexivity.
        -- exfalso. apply (F b0). exact H0.
    + split.
      * intros [errs E]. discriminate.
      * intros [F _]. exfalso. apply (F b0). exact H0.
  - destruct (attempt_failed 0 EmptyString F0) as (evs0 & body0 & err0 & E0 & R0 & W0).
    rewrite E0.
    destruct (exchange_dec (http url 1)) as [[b1 H1] | F1].
    + rewrite (attempt_ok 1 _ b1 H1). cbn.
      unfold requests in *. rewrite filter_app, R0. cbn.
      split; [intros e [<- | [<- | []]]; reflexivity |].
      split; [lia |].
      split.
      { intros d n Hin. apply in_app_or in Hin.
        destruct Hin as [Hin | [E | [E | []]]].
        - exfalso. exact (W0 d n Hin).
        - injection E as <- <-. auto.
        - discriminate. }
      split.
      * intros body. split.
        -- intros [= <-]. right. split; assumption.
        -- intros [H | [_ H]].
           ++ exfalso. apply (F0 body). exact H.
           ++ rewrite H1 in H. injection H as <-. reflexivity.
      * split.
        -- intros [errs E]. discriminate.
        -- intros [_ F]. exfalso. apply (F b1). exact H1.
    + destruct (attempt_failed 1 body0 F1) as (evs1 & body1 & err1 & E1 & R1 & W1).
      rewrite E1. cbn.
      unfold requests in *. rewrite filter_app. cbn. rewrite R0, R1. cbn.
      split; [intros e [<- | [<- | []]]; reflexivity |].
      split; [lia |].
      split.
      { intros d n Hin. apply in_app_or in Hin.
        destruct Hin as [Hin | [E | Hin]].
        - exfalso. exact (W0 d n Hin).
        - injection E as <- <-. auto.
        - exfalso. exact (W1 d n Hin). }
      split.
      * intros body. split.
        -- intros E. discriminate.
        -- intros [H | [_ H]].
           ++ exfalso. apply (F0 body). exact H.
           ++ exfalso. apply (F1 body). exact H.
      * split.
        -- intros _. split; assumption.
        -- intros _. eexists. reflexivity.
Qed.

End ApiFacts.

(** C8 as stated fails on a 2xx status other than 200: a server that
    answers 201 with a body makes GetDataFromAPI fail after two
    attempts. *)
Lemma GetDataFromAPI_rejects_201 :
  200 <= 201 < 300
  /\ snd (Api.GetDataFromAPI server_201 "https://api.example/price")
     = Api.Failed ["unable to reach API"; "unable to reach API"]%string
  /\ (forall body,
        snd (Api.GetDataFromAPI server_201 "https://api.example/price") <> Api.Body body).
Proof.
  split; [lia |]. split; [reflexivity |]. intros body. discriminate.
Qed.

Section JsonFacts.

Import Api.

Variables Json Value : Type.
Variable jsonpath_Get : string -> Json -> result Value.
Variable jsonObject : Json.

(** C9. GetDataFromJSON reads the first byte of the selector unguarded:
    on the empty selector it panics with an index out of range, and on
    every other selector it evaluates the JSON path made of "$" and the
    selector when the selector begins with '[' and of "$." and the
    selector otherwise. *)
Theorem GetDataFromJSON_selector :
  GetDataFromJSON jsonpath_Get jsonObject ""
  = Panics "index out of range [0] with length 0"
  /\ (forall (c : ascii) (rest : string),
        GetDataFromJSON jsonpath_Get jsonObject (String c rest)
        = Returns (jsonpath_Get
                     ((if Ascii.eqb c "["%char then "$" else "$.") ++ String c rest)%string
                     jsonObject)).
Proof.
  split.
  - reflexivity.
  - intros ch rest. unfold GetDataFromJSON.
    destruct (Ascii.eqb ch "["%char); reflexivity.
Qed.

End JsonFacts.

(** ** strongPassword *)

Section PasswordFacts.

Import Password.

Variable tables : Z -> Category.

Lemma count_tallies (rs : list Z) (c : Counters) :
  let c' := fold_left (count tables) rs c in
  l c' = l c + tally (IsLower tables) rs
  /\ u c' = u c + tally (IsUpper tables) rs
  /\ d c' = d c + tally (IsNumber tables) rs
  /\ p c' = p c + tally (IsPunctOrSymbol tables) rs.
Proof.
  revert c. induction rs as [| r rs IH]; intros c; cbn [fold_left].
  - unfold Password.tally. cbn. lia.
  - specialize (IH (count tables c r)). cbv zeta in IH. destruct IH as (Hl & Hu & Hd & Hp).
    cbv zeta. rewrite Hl, Hu, Hd, Hp.
    unfold Password.tally, Password.count, IsPunctOrSymbol, IsUpper, IsLower, IsNumber,
      IsPunct, IsSymbol.
    cbn [filter].
    destruct (category tables r); cbn; lia.
Qed.

Lemma tally_positive (f : Z -> bool) (rs : list Z) :
  (tally f rs >=? 1) = existsb f rs.
Proof.
  unfold Password.tally. induction rs as [| r rs IH]; [reflexivity |].
  cbn [filter existsb]. destruct (f r); cbn [orb].
  - cbn [List.length]. destruct (Z.geb_spec (Z.of_nat (S (List.length (filter f rs)))) 1); lia.
  - exact IH.
Qed.

Lemma tally_classes (rs : list Z) :
  tally (IsLower tables) rs + tally (IsUpper tables) rs
  + tally (IsPunctOrSymbol tables) rs + tally (IsNumber tables) rs
  = tally (classified tables) rs.
Proof.
  unfold Password.tally. induction rs as [| r rs IH]; [reflexivity |].
  unfold classified, IsPunctOrSymbol, IsUpper, IsLower, IsNumber, IsPunct, IsSymbol in *.
  cbn [filter]. destruct (category tables r); cbn [same orb List.length]; lia.
Qed.

Lemma tally_all (f : Z -> bool) (rs : list Z) :
  (tally f rs =? Z.of_nat (List.length rs)) = forallb f rs.
Proof.
  unfold Password.tally.
  assert (Hle : forall xs, (List.length (filter f xs) <= List.length xs)%nat)
    by (intros xs; apply filter_length_le).
  induction rs as [| r rs IH]; [reflexivity |].
  cbn [filter forallb]. destruct (f r); cbn [andb List.length].
  - rewrite <- IH.
    destruct (Z.eqb_spec (Z.of_nat (List.length (filter f rs))) (Z.of_nat (List.length rs)));
      destruct (Z.eqb_spec (Z.of_nat (S (List.length (filter f rs))))
                  (Z.of_nat (S (List.length rs)))); lia.
  - specialize (Hle rs).
    destruct (Z.eqb_spec (Z.of_nat (List.length (filter f rs)))
                (Z.of_nat (S (List.length rs)))); lia.
Qed.

(** On single-byte characters the loop meets the bytes themselves. *)
Lemma range_ascii (input : string) :
  ascii_only input = true ->
  range input = map byte_of (list_ascii_of_string input).
Proof.
  unfold range, ascii_only. induction input as [| a rest IH]; [reflexivity |].
  cbn [list_ascii_of_string forallb map]. intros H.
  apply andb_prop in H. destruct H as [Ha Hrest].
  cbn [range_from DecodeRuneInString]. rewrite Ha. cbn [Nat.pred].
  rewrite (IH Hrest). reflexivity.
Qed.

Lemma len_ascii (input : string) :
  ascii_only input = true -> len input = Z.of_nat (List.length (range input)).
Proof.
  intros H. rewrite (range_ascii input H), length_map. unfold len. f_equal.
  clear H. induction input as [| a rest IH]; [reflexivity |].
  cbn. rewrite IH. reflexivity.
Qed.

(** On passwords made of single-byte characters strongPassword decides
    exactly what the specification says. *)
Lemma strongPassword_ascii (input : string) :
  ascii_only input = true ->
  strongPassword tables input = strong_by_classes tables input.
Proof.
  intros H. unfold strongPassword, strong_by_classes. cbv zeta.
  destruct (Z.geb_spec (len input) 8) as [Hlen | Hlen].
  - destruct (Z.leb_spec 8 (len input)) as [_ | ?]; [| lia]. cbn [andb].
    destruct (count_tallies (range input) {| l := 0; u := 0; p := 0; d := 0 |})
      as (Hl & Hu & Hd & Hp).
    cbn [l u p d] in Hl, Hu, Hd, Hp. rewrite Hl, Hu, Hd, Hp. cbn [Z.add].
    rewrite !tally_positive, tally_classes, (len_ascii input H), tally_all.
    destruct (existsb (IsLower tables) (range input)),
      (existsb (IsUpper tables) (range input)),
      (existsb (IsNumber tables) (range input)),
      (existsb (IsPunctOrSymbol tables) (range input)); reflexivity.
  - destruct (Z.leb_spec 8 (len input)) as [? | _]; [lia |]. reflexivity.
Qed.

(** C10. The password "Aa1!aaa" followed by a capital E with an acute
    accent has nine bytes and eight characters: four lowercase letters,
    two uppercase letters, a digit and a punctuation mark. It meets every
    condition of the claim, and strongPassword rejects it, because the
    four counters add up to the number of characters (8) and are compared
    with the number of bytes (9). *)
Theorem strongPassword_rejects_accented_letter :
  len password_with_accent = 9
  /\ range password_with_accent = [65; 97; 49; 33; 97; 97; 97; 201]
  /\ strong_by_classes tables password_with_accent = true
  /\ fold_left (count tables) (range password_with_accent) {| l := 0; u := 0; p := 0; d := 0 |}
     = {| l := 4; u := 2; p := 1; d := 1 |}
  /\ strongPassword tables password_with_accent = false.
Proof.
  repeat split; reflexivity.
Qed.

End PasswordFacts.

(** ** The dispute engine: lists of ids *)

Section IdLists.

Import Dispute.

Lemma contains_In (ids : list Z) (id : Z) : contains ids id = true <-> In id ids.
Proof.
  unfold contains. rewrite existsb_exists. split.
  - intros (x & Hin & Heq). apply Z.eqb_eq in Heq. subst. exact Hin.
  - intros Hin. exists id. split; [exact Hin | apply Z.eqb_refl].
Qed.

Lemma descends_at_cons (x : Z) (ids : list Z) (i : nat) :
  descends_at (x :: ids) (S i) <-> descends_at ids i.
Proof. unfold descends_at. cbn [nth_error]. reflexivity. Qed.

Lemma StrictlyAscending_tail (x : Z) (ids : list Z) :
  StrictlyAscending (x :: ids) -> StrictlyAscending ids.
Proof.
  intros H i Hd. apply (H (S i)). apply descends_at_cons. exact Hd.
Qed.



Lemma firstDescendingPair_None (from : nat) (ids : list Z) :
  firstDescendingPair from ids = None <-> StrictlyAscending ids.
Proof.
  revert from. induction ids as [| x ids IH]; intros from.
  - split; [| reflexivity]. intros _ i (a & b & Ha & _). destruct i; discriminate.
  - destruct ids as [| y ids].
    + split; [| reflexivity]. intros _ i (a & b & Ha & Hb & _).
      destruct i as [| i]; [discriminate |]. destruct i; discriminate.
    + cbn [firstDescendingPair]. destruct (Z.ltb_spec x y) as [Hlt | Hge].
      * rewrite (IH (S from)). split.
        -- intros H [| i] Hd.
           ++ destruct Hd as (a & b & [= <-] & [= <-] & Hle). lia.
           ++ apply (H i). apply descends_at_cons in Hd. exact Hd.
        -- apply StrictlyAscending_tail.
      * split; [discriminate |]. intros H. exfalso. apply (H 0%nat).
        exists x, y. cbn. auto.
Qed.

Lemma firstDescendingPair_Some (from : nat) (ids : list Z) (index0 index1 : nat) :
  firstDescendingPair from ids = Some (index0, index1) ->
  index1 = S index0 /\ (from <= index0)%nat /\ first_descent ids (index0 - from).
Proof.
  revert from. induction ids as [| x ids IH]; intros from; [discriminate |].
  destruct ids as [| y ids]; [discriminate |].
  cbn [firstDescendingPair]. destruct (Z.ltb_spec x y) as [Hlt | Hge].
  - intros H. destruct (IH (S from) H) as (-> & Hle & Hd & Hmin).
    split; [reflexivity |]. split; [lia |].
    replace (index0 - from)%nat with (S (index0 - S from)) by lia.
    split.
    + apply descends_at_cons. exact Hd.
    + intros [| k] Hk Hdk.
      * destruct Hdk as (a & b & [= <-] & [= <-] & Hba). lia.
      * apply (Hmin k); [lia |]. apply descends_at_cons in Hdk. exact Hdk.
  - intros [= <- <-]. split; [reflexivity |]. split; [lia |].
    replace (from - from)%nat with 0%nat by lia.
    split; [exists x, y; cbn; auto | intros k Hk; lia].
Qed.

Lemma first_descent_unique (ids : list Z) (i j : nat) :
  first_descent ids i -> first_descent ids j -> i = j.
Proof.
  intros [Hi Hmi] [Hj Hmj].
  destruct (Nat.lt_trichotomy i j) as [H | [H | H]]; [| exact H |].
  - exfalso. exact (Hmj i H Hi).
  - exfalso. exact (Hmi j H Hj).
Qed.

Lemma firstAbsent_None (from : nat) (wanted present : list Z) :
  firstAbsent from wanted present = None <-> (forall id, In id wanted -> In id present).
Proof.
  revert from. induction wanted as [| x wanted IH]; intros from.
  - split; [intros _ id [] | reflexivity].
  - cbn [firstAbsent]. destruct (contains present x) eqn:Hc.
    + rewrite (IH (S from)). apply contains_In in Hc. split.
      * intros H id [<- | Hin]; [exact Hc | exact (H id Hin)].
      * intros H id Hin. apply H. right. exact Hin.
    + split; [discriminate |]. intros H. exfalso.
      assert (Hin : In x present) by (apply H; left; reflexivity).
      apply contains_In in Hin. congruence.
Qed.

Lemma firstAbsent_Some (from : nat) (wanted present : list Z) (pos : nat) (id : Z) :
  firstAbsent from wanted present = Some (pos, id) ->
  (from <= pos)%nat /\ first_lacking wanted present (pos - from) id.
Proof.
  revert from. induction wanted as [| x wanted IH]; intros from; [discriminate |].
  cbn [firstAbsent]. destruct (contains present x) eqn:Hc.
  - intros H. destruct (IH (S from) H) as (Hle & Hn & Hnot & Hbefore).
    split; [lia |].
    replace (pos - from)%nat with (S (pos - S from)) by lia.
    split; [exact Hn |]. split; [exact Hnot |].
    intros [| k] y Hk Hy.
    + injection Hy as <-. apply contains_In. exact Hc.
    + apply (Hbefore k y); [lia | exact Hy].
  - intros [= <- <-]. split; [lia |].
    replace (from - from)%nat with 0%nat by lia.
    split; [reflexivity |]. split.
    + intros Hin. apply contains_In in Hin. congruence.
    + intros k y Hk. lia.
Qed.


End IdLists.

(** ** CheckDisputeForIds *)

Section CheckDisputeForIdsFacts.

Import Dispute.

Variable chain : Chain.
Variables epoch gasMultiplier : Z.
Variable blockIndex : nat.
Variables ids revealed : list Z.
Variable n : nat.

Let run := CheckDisputeForIds chain epoch gasMultiplier blockIndex ids revealed n.

Lemma disputeIds_events (tx : Txn) (gasLimit : Z) :
  events (disputeIds chain tx gasLimit n) = [Submit tx gasLimit (send chain n tx gasLimit)].
Proof. reflexivity. Qed.

Lemma disputeIdsWithIncreasedGas_ok (tx : Txn) (cap : Z) :
  blockGasLimit chain = Ok cap ->
  disputeIdsWithIncreasedGas chain gasMultiplier tx n
  = disputeIds chain tx (Z.min (estimateGas chain tx * gasMultiplier) cap) n.
Proof.
  intros H. unfold disputeIdsWithIncreasedGas, IncreaseGasLimitValue. rewrite H.
  reflexivity.
Qed.

Lemma disputeIdsWithIncreasedGas_failed (tx : Txn) (err : error) :
  blockGasLimit chain = Err err ->
  disputeIdsWithIncreasedGas chain gasMultiplier tx n = ([], n, Err err).
Proof.
  intros H. unfold disputeIdsWithIncreasedGas, IncreaseGasLimitValue. rewrite H.
  reflexivity.
Qed.

(** Which branch [CheckDisputeForIds] takes. *)
Lemma CheckDisputeForIds_cases :
  (exists i, first_descent ids i
     /\ run = disputeIds chain (disputeOnOrderOfIds epoch blockIndex i (S i))
                (estimateGas chain (disputeOnOrderOfIds epoch blockIndex i (S i))) n)
  \/ (StrictlyAscending ids
      /\ exists pos id, first_lacking revealed ids pos id
         /\ run = disputeIdsWithIncreasedGas chain gasMultiplier
                    (disputeCollectionIdShouldBePresent epoch blockIndex id) n)
  \/ (StrictlyAscending ids /\ (forall id, In id revealed -> In id ids)
      /\ exists pos id, first_lacking ids revealed pos id
         /\ run = disputeIdsWithIncreasedGas chain gasMultiplier
                    (disputeCollectionIdShouldBeAbsent epoch blockIndex id pos) n)
  \/ (StrictlyAscending ids /\ (forall id, In id revealed <-> In id ids)
      /\ run = ([], n, Ok None)).
Proof.
  unfold run, CheckDisputeForIds.
  destruct (firstDescendingPair 0 ids) as [[index0 index1] |] eqn:Hd.
  - left. destruct (firstDescendingPair_Some _ _ _ _ Hd) as (-> & _ & Hf).
    rewrite Nat.sub_0_r in Hf. exists index0. split; [exact Hf | reflexivity].
  - right. apply firstDescendingPair_None in Hd.
    destruct (firstAbsent 0 revealed ids) as [[pos id] |] eqn:Hm.
    + left. split; [exact Hd |].
      destruct (firstAbsent_Some _ _ _ _ _ Hm) as (_ & Hf).
      rewrite Nat.sub_0_r in Hf. exists pos, id. split; [exact Hf | reflexivity].
    + right. pose proof (proj1 (firstAbsent_None _ _ _) Hm) as Hm'. clear Hm. rename Hm' into Hm.
      destruct (firstAbsent 0 ids revealed) as [[pos id] |] eqn:He.
      * left. split; [exact Hd |]. split; [exact Hm |].
        destruct (firstAbsent_Some _ _ _ _ _ He) as (_ & Hf).
        rewrite Nat.sub_0_r in Hf. exists pos, id. split; [exact Hf | reflexivity].
      * right. pose proof (proj1 (firstAbsent_None _ _ _) He) as He'. clear He. rename He' into He. split; [exact Hd |].
        split; [| reflexivity]. intros id. split; [apply Hm | apply He].
Qed.

Lemma first_lacking_lacks (wanted present : list Z) (pos : nat) (id : Z) :
  first_lacking wanted present pos id -> In id wanted /\ ~ In id present.
Proof.
  intros (Hn & Hnot & _). split; [exact (nth_error_In _ _ Hn) | exact Hnot].
Qed.

(** C2. CheckDisputeForIds selects the id dispute in a fixed order.
    (1) When the ids of the block are not strictly ascending it submits
    disputeOnOrderOfIds with the indices i, i+1 of the first pair that
    does not ascend. (2) Otherwise, when a revealed id is missing from the
    block, it submits disputeCollectionIdShouldBePresent for the first
    such id. (3) Otherwise, when the block has an id that was not
    revealed, it submits disputeCollectionIdShouldBeAbsent with the first
    such id and its position in the block. (4) When the two lists are
    the same ordered set it submits nothing and returns no transaction
    and no error. In cases (2) and (3) the transaction goes out once the
    gas limit has been increased, and nothing goes out when the increase
    fails. *)
Theorem CheckDisputeForIds_subclass :
  (~ StrictlyAscending ids ->
     exists i, first_descent ids i
       /\ submissions (events run) = [disputeOnOrderOfIds epoch blockIndex i (S i)])
  /\ (StrictlyAscending ids -> (exists id, In id revealed /\ ~ In id ids) ->
      exists pos id, first_lacking revealed ids pos id
        /\ (forall cap, blockGasLimit chain = Ok cap ->
            submissions (events run)
            = [disputeCollectionIdShouldBePresent epoch blockIndex id])
        /\ (forall err, blockGasLimit chain = Err err -> submissions (events run) = []))
  /\ (StrictlyAscending ids -> (forall id, In id revealed -> In id ids) ->
      (exists id, In id ids /\ ~ In id revealed) ->
      exists pos id, first_lacking ids revealed pos id
        /\ (forall cap, blockGasLimit chain = Ok cap ->
            submissions (events run)
            = [disputeCollectionIdShouldBeAbsent epoch blockIndex id pos])
        /\ (forall err, blockGasLimit chain = Err err -> submissions (events run) = []))
  /\ (StrictlyAscending ids -> ids = revealed ->
      events run = [] /\ value run = Ok None).
Proof.
  destruct CheckDisputeForIds_cases
    as [(i & Hi & Hrun) | [(Hs & pos & id & Hf & Hrun)
         | [(Hs & Hall & pos & id & Hf & Hrun) | (Hs & Hsame & Hrun)]]].
  - (* a pair does not ascend *)
    split; [| split; [| split]].
    + intros _. exists i. split; [exact Hi |]. rewrite Hrun. reflexivity.
    + intros Hasc. exfalso. exact (Hasc i (proj1 Hi)).
    + intros Hasc. exfalso. exact (Hasc i (proj1 Hi)).
    + intros Hasc. exfalso. exact (Hasc i (proj1 Hi)).
  - (* a revealed id is missing *)
    destruct (first_lacking_lacks _ _ _ _ Hf) as [Hin Hnot].
    split; [| split; [| split]].
    + intros Hnot'. exfalso. exact (Hnot' Hs).
    + intros _ _. exists pos, id. split; [exact Hf |]. split.
      * intros cap Hcap. rewrite Hrun, (disputeIdsWithIncreasedGas_ok _ cap Hcap).
        reflexivity.
      * intros err Herr. rewrite Hrun, (disputeIdsWithIncreasedGas_failed _ err Herr).
        reflexivity.
    + intros _ Hall _. exfalso. exact (Hnot (Hall id Hin)).
    + intros _ Heq. exfalso. subst. contradiction.
  - (* the block has an extra id *)
    destruct (first_lacking_lacks _ _ _ _ Hf) as [Hin Hnot].
    split; [| split; [| split]].
    + intros Hnot'. exfalso. exact (Hnot' Hs).
    + intros _ (x & Hx & Hnx). exfalso. exact (Hnx (Hall x Hx)).
    + intros _ _ _. exists pos, id. split; [exact Hf |]. split.
      * intros cap Hcap. rewrite Hrun, (disputeIdsWithIncreasedGas_ok _ cap Hcap).
        reflexivity.
      * intros err Herr. rewrite Hrun, (disputeIdsWithIncreasedGas_failed _ err Herr).
        reflexivity.
    + intros _ Heq. exfalso. subst. contradiction.
  - (* the same ordered set *)
    split; [| split; [| split]].
    + intros Hnot'. exfalso. exact (Hnot' Hs).
    + intros _ (x & Hx & Hnx). exfalso. apply Hnx, Hsame, Hx.
    + intros _ _ (x & Hx & Hnx). exfalso. apply Hnx, Hsame, Hx.
    + intros _ _. rewrite Hrun. split; reflexivity.
Qed.

(** C4. Whenever CheckDisputeForIds submits
    disputeCollectionIdShouldBePresent or disputeCollectionIdShouldBeAbsent
    the gas limit of the submission is the increased one: the estimate
    times the configured factor, capped at the block gas limit. And when
    the increase fails in a case that calls for one of these two disputes
    (ids strictly ascending, an id missing or extra), CheckDisputeForIds
    returns that error and submits nothing. *)
Theorem CheckDisputeForIds_gas_increase :
  (forall tx gasLimit resp,
     In (Submit tx gasLimit resp) (events run) -> needs_gas_increase tx = true ->
     IncreaseGasLimitValue chain gasMultiplier (estimateGas chain tx) = Ok gasLimit
     /\ exists cap, blockGasLimit chain = Ok cap
          /\ gasLimit = Z.min (estimateGas chain tx * gasMultiplier) cap)
  /\ (forall err,
        blockGasLimit chain = Err err ->
        StrictlyAscending ids ->
        (exists id, (In id revealed /\ ~ In id ids) \/ (In id ids /\ ~ In id revealed)) ->
        value run = Err err /\ events run = [] /\ sent run = n).
Proof.
  split.
  - intros tx gasLimit resp Hin Hneed.
    destruct CheckDisputeForIds_cases
      as [(i & Hi & Hrun) | [(Hs & pos & id & Hf & Hrun)
           | [(Hs & Hall & pos & id & Hf & Hrun) | (Hs & Hsame & Hrun)]]];
      rewrite Hrun in Hin.
    + rewrite disputeIds_events in Hin. destruct Hin as [E | []].
      injection E as <- _ _. discriminate.
    + unfold disputeIdsWithIncreasedGas, IncreaseGasLimitValue in *.
      destruct (blockGasLimit chain) as [cap | err].
      * rewrite disputeIds_events in Hin. destruct Hin as [E | []].
        injection E as <- <- _. split; [reflexivity |]. exists cap. auto.
      * destruct Hin.
    + unfold disputeIdsWithIncreasedGas, IncreaseGasLimitValue in *.
      destruct (blockGasLimit chain) as [cap | err].
      * rewrite disputeIds_events in Hin. destruct Hin as [E | []].
        injection E as <- <- _. split; [reflexivity |]. exists cap. auto.
      * destruct Hin.
    + destruct Hin.
  - intros err Herr Hasc (x & Hx).
    destruct CheckDisputeForIds_cases
      as [(i & Hi & Hrun) | [(Hs & pos & id & Hf & Hrun)
           | [(Hs & Hall & pos & id & Hf & Hrun) | (Hs & Hsame & Hrun)]]].
    + exfalso. exact (Hasc i (proj1 Hi)).
    + rewrite Hrun, (disputeIdsWithIncreasedGas_failed _ err Herr). auto.
    + rewrite Hrun, (disputeIdsWithIncreasedGas_failed _ err Herr). auto.
    + exfalso. destruct Hx as [[Hin Hnot] | [Hin Hnot]]; apply Hnot, Hsame, Hin.
Qed.

End CheckDisputeForIdsFacts.

(** ** GiveSorted *)

Section GiveSortedFacts.

Import Dispute.

Variable chain : Chain.
Variable epoch : Z.
Variable collectionId : Z.
Variable sortedValues : list Z.

Let from := giveSortedFrom chain epoch collectionId sortedValues.
Let response := batchResponse chain epoch collectionId sortedValues.
Let submission := batchSubmission chain epoch collectionId sortedValues.

Lemma giveSortedFrom_done (idx : nat) (batchSize : positive) (n : nat) (acc : list Event) :
  (List.length sortedValues <= idx)%nat ->
  from idx batchSize n acc = (acc, n, Completed).
Proof.
  intros Hle. unfold from. rewrite giveSortedFrom_equation_1.
  destruct (le_lt_dec (List.length sortedValues) idx) as [Hdone | Hmore]; [| lia].
  reflexivity.
Qed.

Lemma giveSortedFrom_accepted (idx : nat) (batchSize : positive) (n : nat)
  (acc : list Event) :
  (idx < List.length sortedValues)%nat ->
  response idx batchSize n = Accepted ->
  from idx batchSize n acc
  = from (idx + List.length (batch sortedValues idx batchSize)) batchSize (S n)
      (acc ++ [submission idx batchSize n]).
Proof.
  intros Hlt Hs. unfold from, submission, response, batchSubmission, batchResponse, batchTxn in *.
  rewrite giveSortedFrom_equation_1 at 1.
  destruct (le_lt_dec (List.length sortedValues) idx) as [Hdone | Hmore]; [lia |].
  cbn. rewrite Hs. reflexivity.
Qed.

Lemma giveSortedFrom_halved (idx : nat) (batchSize : positive) (n : nat)
  (acc : list Event) :
  (idx < List.length sortedValues)%nat ->
  response idx batchSize n = Rejected gasLimitReached ->
  batchSize <> 1%positive ->
  from idx batchSize n acc
  = from idx (Pos.div2 batchSize) (S n) (acc ++ [submission idx batchSize n]).
Proof.
  intros Hlt Hs Hne. unfold from, submission, response, batchSubmission, batchResponse, batchTxn in *.
  rewrite giveSortedFrom_equation_1 at 1.
  destruct (le_lt_dec (List.length sortedValues) idx) as [Hdone | Hmore]; [lia |].
  cbn. rewrite Hs. cbn.
  destruct batchSize as [half | half |]; [reflexivity | reflexivity | congruence].
Qed.

Lemma giveSortedFrom_gave_up (idx : nat) (n : nat) (acc : list Event) :
  (idx < List.length sortedValues)%nat ->
  response idx 1 n = Rejected gasLimitReached ->
  from idx 1 n acc = (acc ++ [submission idx 1 n], S n, GaveUp).
Proof.
  intros Hlt Hs. unfold from, submission, response, batchSubmission, batchResponse, batchTxn in *.
  rewrite giveSortedFrom_equation_1 at 1.
  destruct (le_lt_dec (List.length sortedValues) idx) as [Hdone | Hmore]; [lia |].
  cbn. rewrite Hs. reflexivity.
Qed.

Lemma giveSortedFrom_aborted (idx : nat) (batchSize : positive) (n : nat)
  (acc : list Event) (reason : error) :
  (idx < List.length sortedValues)%nat ->
  response idx batchSize n = Rejected reason ->
  reason <> gasLimitReached ->
  from idx batchSize n acc = (acc ++ [submission idx batchSize n], S n, Aborted reason).
Proof.
  intros Hlt Hs Hne. unfold from, submission, response, batchSubmission, batchResponse, batchTxn in *.
  rewrite giveSortedFrom_equation_1 at 1.
  destruct (le_lt_dec (List.length sortedValues) idx) as [Hdone | Hmore]; [lia |].
  cbn. rewrite Hs. cbn.
  destruct (String.eqb_spec reason gasLimitReached) as [E | _]; [contradiction |].
  reflexivity.
Qed.

Lemma batch_length (idx : nat) (batchSize : positive) :
  (idx < List.length sortedValues)%nat ->
  (1 <= List.length (batch sortedValues idx batchSize) <= Pos.to_nat batchSize)%nat.
Proof.
  intros Hlt. unfold batch. rewrite length_firstn, length_skipn.
  pose proof (Pos2Nat.is_pos batchSize). lia.
Qed.

Lemma div2_smaller (batchSize : positive) :
  batchSize <> 1%positive ->
  (Pos.to_nat (Pos.div2 batchSize) < Pos.to_nat batchSize)%nat.
Proof.
  destruct batchSize as [half | half |]; cbn [Pos.div2]; intros H.
  - rewrite Pos2Nat.inj_xI. lia.
  - rewrite Pos2Nat.inj_xO. pose proof (Pos2Nat.is_pos half). lia.
  - congruence.
Qed.

(** Induction along the run of the stream: a property of the final result
    that holds when the stream stops and is carried back over every turn
    holds of every run. *)
Lemma giveSortedFrom_run
  (P : nat -> positive -> nat -> list Event -> list Event * nat * Outcome -> Prop) :
  (forall idx batchSize n acc,
     (List.length sortedValues <= idx)%nat -> P idx batchSize n acc (acc, n, Completed)) ->
  (forall idx batchSize n acc r,
     (idx < List.length sortedValues)%nat ->
     response idx batchSize n = Accepted ->
     P (idx + List.length (batch sortedValues idx batchSize))%nat batchSize (S n)
       (acc ++ [submission idx batchSize n]) r ->
     P idx batchSize n acc r) ->
  (forall idx batchSize n acc r,
     (idx < List.length sortedValues)%nat ->
     response idx batchSize n = Rejected gasLimitReached ->
     batchSize <> 1%positive ->
     P idx (Pos.div2 batchSize) (S n) (acc ++ [submission idx batchSize n]) r ->
     P idx batchSize n acc r) ->
  (forall idx n acc,
     (idx < List.length sortedValues)%nat ->
     response idx 1 n = Rejected gasLimitReached ->
     P idx 1%positive n acc (acc ++ [submission idx 1 n], S n, GaveUp)) ->
  (forall idx batchSize n acc reason,
     (idx < List.length sortedValues)%nat ->
     response idx batchSize n = Rejected reason ->
     reason <> gasLimitReached ->
     P idx batchSize n acc (acc ++ [submission idx batchSize n], S n, Aborted reason)) ->
  forall idx batchSize n acc, P idx batchSize n acc (from idx batchSize n acc).
Proof.
  intros Hdone Hacc Hhalf Hgive Habort idx batchSize.
  remember ((List.length sortedValues - idx) + Pos.to_nat batchSize)%nat as m eqn:Hm.
  revert idx batchSize Hm.
  induction m as [m IH] using lt_wf_ind. intros idx batchSize Hm n acc.
  destruct (le_lt_dec (List.length sortedValues) idx) as [Hle | Hlt].
  - rewrite giveSortedFrom_done by exact Hle. apply Hdone. exact Hle.
  - destruct (response idx batchSize n) as [| reason] eqn:Hr.
    + rewrite giveSortedFrom_accepted by assumption.
      apply Hacc; [assumption | assumption |].
      pose proof (batch_length idx batchSize Hlt).
      eapply IH; [| reflexivity]. lia.
    + destruct (String.eqb_spec reason gasLimitReached) as [-> | Hne].
      * destruct (Pos.eq_dec batchSize 1) as [-> | Hbs].
        -- rewrite giveSortedFrom_gave_up by assumption. apply Hgive; assumption.
        -- rewrite giveSortedFrom_halved by assumption.
           apply Hhalf; [assumption | assumption | assumption |].
           pose proof (div2_smaller batchSize Hbs).
           eapply IH; [| reflexivity]. lia.
      * rewrite (giveSortedFrom_aborted idx batchSize n acc reason) by assumption.
        apply Habort; assumption.
Qed.

Lemma accepted_values_app (t1 t2 : list Event) :
  accepted_values (t1 ++ t2) = accepted_values t1 ++ accepted_values t2.
Proof. unfold accepted_values. apply flat_map_app. Qed.

Lemma batch_then_rest (idx : nat) (batchSize : positive) :
  batch sortedValues idx batchSize
  ++ skipn (idx + List.length (batch sortedValues idx batchSize)) sortedValues
  = skipn idx sortedValues.
Proof.
  unfold batch. rewrite Nat.add_comm, <- skipn_skipn.
  set (l := skipn idx sortedValues).
  destruct (le_lt_dec (Pos.to_nat batchSize) (List.length l)) as [Hle | Hgt].
  - rewrite length_firstn, Nat.min_l by exact Hle. apply firstn_skipn.
  - rewrite firstn_all2 by lia. rewrite skipn_all. apply app_nil_r.
Qed.

(** The accepted values, in the order of their acceptance, are always the
    values from [idx] on up to some point, and all of them when the
    stream completes: nothing is sent again once accepted, and nothing is
    skipped. *)
Lemma giveSortedFrom_accepted_values (idx : nat) (batchSize : positive) (n : nat)
  (acc : list Event) :
  exists rest,
    accepted_values acc ++ skipn idx sortedValues
    = accepted_values (events (from idx batchSize n acc)) ++ rest
    /\ (value (from idx batchSize n acc) = Completed -> rest = []).
Proof.
  apply (giveSortedFrom_run
    (fun idx batchSize n acc r =>
       exists rest,
         accepted_values acc ++ skipn idx sortedValues = accepted_values (events r) ++ rest
         /\ (value r = Completed -> rest = []))); clear idx batchSize n acc.
  - intros idx batchSize n acc Hle. exists []. cbn.
    rewrite skipn_all2 by exact Hle. auto.
  - intros idx batchSize n acc r Hlt Hr (rest & Heq & Hrest).
    exists rest. split; [| exact Hrest]. rewrite <- Heq.
    rewrite accepted_values_app. unfold submission, batchSubmission. fold response. rewrite Hr. cbn.
    rewrite app_nil_r, <- app_assoc, batch_then_rest. reflexivity.
  - intros idx batchSize n acc r Hlt Hr Hne (rest & Heq & Hrest).
    exists rest. split; [| exact Hrest]. rewrite <- Heq.
    rewrite accepted_values_app. unfold submission, batchSubmission. fold response. rewrite Hr. cbn.
    rewrite app_nil_r. reflexivity.
  - intros idx n acc Hlt Hr. exists (skipn idx sortedValues). cbn.
    rewrite accepted_values_app. unfold submission, batchSubmission. fold response. rewrite Hr. cbn.
    rewrite app_nil_r. split; [reflexivity | discriminate].
  - intros idx batchSize n acc reason Hlt Hr Hne. exists (skipn idx sortedValues). cbn.
    rewrite accepted_values_app. unfold submission, batchSubmission. fold response. rewrite Hr. cbn.
    rewrite app_nil_r. split; [reflexivity | discriminate].
Qed.

(** What the stream adds to the trace are giveSorted batches of the
    collection, none empty and none longer than the batch size it was
    started with. *)
Lemma giveSortedFrom_events (idx : nat) (batchSize : positive) (n : nat)
  (acc : list Event) :
  exists new,
    events (from idx batchSize n acc) = acc ++ new
    /\ Forall (is_batch epoch collectionId (Pos.to_nat batchSize)) new.
Proof.
  apply (giveSortedFrom_run
    (fun idx batchSize n acc r =>
       exists new,
         events r = acc ++ new
         /\ Forall (is_batch epoch collectionId (Pos.to_nat batchSize)) new));
    clear idx batchSize n acc.
  - intros idx batchSize n acc Hle. exists []. cbn. rewrite app_nil_r. auto.
  - intros idx batchSize n acc r Hlt Hr (new & Heq & Hall).
    exists (submission idx batchSize n :: new). split.
    + rewrite Heq, <- app_assoc. reflexivity.
    + constructor; [| exact Hall].
      do 3 eexists. split; [reflexivity |]. apply batch_length. exact Hlt.
  - intros idx batchSize n acc r Hlt Hr Hne (new & Heq & Hall).
    exists (submission idx batchSize n :: new). split.
    + rewrite Heq, <- app_assoc. reflexivity.
    + constructor.
      * do 3 eexists. split; [reflexivity |]. apply batch_length. exact Hlt.
      * pose proof (div2_smaller batchSize Hne) as Hsmall.
        eapply Forall_impl; [| exact Hall].
        intros e (values & gasLimit & r0 & -> & Hlen).
        do 3 eexists. split; [reflexivity |]. lia.
  - intros idx n acc Hlt Hr. exists [submission idx 1 n]. split; [reflexivity |].
    constructor; [| constructor].
    do 3 eexists. split; [reflexivity |]. apply batch_length. exact Hlt.
  - intros idx batchSize n acc reason Hlt Hr Hne.
    exists [submission idx batchSize n]. split; [reflexivity |].
    constructor; [| constructor].
    do 3 eexists. split; [reflexivity |]. apply batch_length. exact Hlt.
Qed.

(** C3. GiveSorted sends the sorted values in batches. It starts at the
    first value with batch size 20, and each batch is the next batchSize
    values after the accepted ones. When a batch is accepted the stream
    moves on by its length; on "gas limit reached" the batch size is
    halved (20, 10, 5, 2, 1) and the stream goes on from the same index,
    the last accepted one; at batch size 1 it gives up. So the accepted
    values are at every moment a prefix of the list, the whole list when
    the stream completes, and no batch has more than 20 values. An empty
    (nil) list submits nothing. *)
Theorem GiveSorted_batches (n : nat) :
  GiveSorted chain epoch collectionId [] n = ([], n, Completed)
  /\ GiveSorted chain epoch collectionId sortedValues n
     = giveSortedFrom chain epoch collectionId sortedValues 0 20 n []
  /\ map Pos.div2 [20; 10; 5; 2]%positive = [10; 5; 2; 1]%positive
  /\ (forall (idx : nat) (batchSize : positive) (m : nat) (acc : list Event),
        (idx < List.length sortedValues)%nat ->
        batchTxn epoch collectionId sortedValues idx batchSize
        = giveSorted epoch collectionId
            (firstn (Pos.to_nat batchSize) (skipn idx sortedValues))
        /\ (batchResponse chain epoch collectionId sortedValues idx batchSize m = Accepted ->
            giveSortedFrom chain epoch collectionId sortedValues idx batchSize m acc
            = giveSortedFrom chain epoch collectionId sortedValues
                (idx + List.length (batch sortedValues idx batchSize)) batchSize (S m)
                (acc ++ [batchSubmission chain epoch collectionId sortedValues
                           idx batchSize m]))
        /\ (batchResponse chain epoch collectionId sortedValues idx batchSize m
            = Rejected gasLimitReached ->
            batchSize <> 1%positive ->
            giveSortedFrom chain epoch collectionId sortedValues idx batchSize m acc
            = giveSortedFrom chain epoch collectionId sortedValues
                idx (Pos.div2 batchSize) (S m)
                (acc ++ [batchSubmission chain epoch collectionId sortedValues
                           idx batchSize m]))
        /\ (batchResponse chain epoch collectionId sortedValues idx 1 m
            = Rejected gasLimitReached ->
            giveSortedFrom chain epoch collectionId sortedValues idx 1 m acc
            = (acc ++ [batchSubmission chain epoch collectionId sortedValues idx 1 m],
               S m, GaveUp)))
  /\ (exists rest,
        sortedValues
        = accepted_values (events (GiveSorted chain epoch collectionId sortedValues n))
          ++ rest
        /\ (value (GiveSorted chain epoch collectionId sortedValues n) = Completed ->
            rest = []))
  /\ Forall (is_batch epoch collectionId 20)
       (events (GiveSorted chain epoch collectionId sortedValues n)).
Proof.
  split.
  { unfold GiveSorted. rewrite giveSortedFrom_equation_1. reflexivity. }
  split; [reflexivity |].
  split; [reflexivity |].
  split.
  { intros idx batchSize m acc Hlt. split; [reflexivity |].
    split; [| split].
    - intros Hr. apply giveSortedFrom_accepted; assumption.
    - intros Hr Hne. apply giveSortedFrom_halved; assumption.
    - intros Hr. apply giveSortedFrom_gave_up; assumption. }
  split.
  - destruct (giveSortedFrom_accepted_values 0 BatchSize n []) as (rest & Heq & Hrest).
    exists rest. split; [exact Heq | exact Hrest].
  - destruct (giveSortedFrom_events 0 BatchSize n []) as (new & Heq & Hall).
    unfold GiveSorted. unfold from in Heq. rewrite Heq. exact Hall.
Qed.

End GiveSortedFacts.

(** ** HandleDispute *)

Section HandleDisputeFacts.

Import Dispute.

Variable chain : Chain.
Variables epoch gasMultiplier : Z.

Lemma bind_events {A B : Type} (m : M A) (f : A -> M B) (n : nat) :
  events (bind m f n) = events (m n) ++ events (f (value (m n)) (sent (m n))).
Proof.
  unfold bind, events, value, sent.
  destruct (m n) as [[evs1 n1] a]. cbn.
  destruct (f a n1) as [[evs2 n2] b]. reflexivity.
Qed.



(** Traces that neither verify nor submit. *)
Lemma recordBounty_events (n : nat) :
  events (recordBounty chain n) = [StoreBountyId]
  \/ exists err, events (recordBounty chain n) = [StoreBountyId; Log err].
Proof.
  unfold recordBounty. destruct (storeBountyId chain n) as [err |].
  - right. exists err. reflexivity.
  - left. reflexivity.
Qed.

Lemma settle_events (r : Response) (n : nat) :
  verified (events (settle chain r n)) = []
  /\ submissions (events (settle chain r n)) = []
  /\ (forall reason, r = Rejected reason -> events (settle chain r n) = [Log reason])
  /\ (r = Accepted ->
      events (settle chain r n) = [StoreBountyId]
      \/ exists err, events (settle chain r n) = [StoreBountyId; Log err]).
Proof.
  destruct r as [| reason]; cbn [settle].
  - destruct (recordBounty_events n) as [E | [err E]]; rewrite E;
      repeat split; try discriminate; auto.
    intros _. right. exists err. reflexivity.
  - repeat split; try discriminate. intros r [= <-]. reflexivity.
Qed.

(** Every block of the shuffled list gets its turn of the loop, whatever
    happened on the blocks before it. *)
Lemma visitAll_visits (sorted : list Z) (biggestStake : Z) (medians revealed : list Z)
  (maps : RevealedDataMaps) (blockIds : list Z) (n : nat) (blockId : Z) :
  In blockId blockIds ->
  exists m before after,
    events (visitAll chain epoch gasMultiplier sorted biggestStake medians revealed maps
              blockIds n)
    = before
      ++ events (visit chain epoch gasMultiplier sorted biggestStake medians revealed maps
                   blockId m)
      ++ after.
Proof.
  revert n. induction blockIds as [| b rest IH]; intros n Hin; [destruct Hin |].
  cbn [visitAll]. rewrite bind_events.
  destruct Hin as [-> | Hin].
  - exists n, []. eexists. reflexivity.
  - destruct (IH (sent (visit chain epoch gasMultiplier sorted biggestStake medians
                         revealed maps b n)) Hin) as (m & before & after & Heq).
    rewrite Heq. exists m. eexists. exists after. rewrite app_assoc. reflexivity.
Qed.

Lemma HandleDispute_visits (sorted : list Z) (biggestStake biggestStakerId : Z)
  (medians revealed : list Z) (maps : RevealedDataMaps) :
  GetSortedProposedBlockIds chain = Ok sorted ->
  GetBiggestStakeAndId chain = Ok (biggestStake, biggestStakerId) ->
  GetLocalMediansData chain = Ok (medians, revealed, maps) ->
  snd (HandleDispute chain epoch gasMultiplier) = None
  /\ forall blockId, In blockId (Shuffle chain sorted) ->
     exists m before after,
       fst (HandleDispute chain epoch gasMultiplier)
       = before
         ++ events (visit chain epoch gasMultiplier sorted biggestStake medians revealed
                      maps blockId m)
         ++ after.
Proof.
  intros Hs Hb Hm. unfold HandleDispute. rewrite Hs, Hb, Hm. cbn [fst snd].
  split; [reflexivity |]. intros blockId Hin. rewrite bind_events.
  destruct (visitAll_visits sorted biggestStake medians revealed maps _ 0%nat blockId Hin)
    as (m & before & after & Heq).
  rewrite Heq. exists m, before. eexists. rewrite <- !app_assoc. reflexivity.
Qed.

Lemma visit_verifyBlock (sorted : list Z) (biggestStake : Z) (medians revealed : list Z)
  (maps : RevealedDataMaps) (blockId : Z) (blk : StructsBlock) (blockIndex : nat) :
  GetProposedBlock chain blockId = Ok blk ->
  IndexOf 0 sorted blockId = Some blockIndex ->
  lastVisitedValue chain blockIndex = 0 ->
  Valid blk = true ->
  visit chain epoch gasMultiplier sorted biggestStake medians revealed maps blockId
  = verifyBlock chain epoch gasMultiplier blockIndex blk biggestStake medians revealed maps.
Proof.
  intros Hb Hi Hl Hv. unfold visit. rewrite Hb, Hi, Hl, Hv. reflexivity.
Qed.

Section OneBlock.

Variable blockIndex : nat.
Variable blk : StructsBlock.
Variable biggestStake : Z.
Variables medians revealed : list Z.
Variable maps : RevealedDataMaps.
Variable n : nat.

Let work :=
  events (verifyBlock chain epoch gasMultiplier blockIndex blk biggestStake medians
            revealed maps n).
Let ids := CheckDisputeForIds chain epoch gasMultiplier blockIndex (Ids blk) revealed n.

Lemma verifyBlock_biggestStake :
  BiggestStake blk <> biggestStake ->
  work
  = Verify blockIndex BiggestStakeMismatch
    :: Submit (disputeBiggestStakeProposed epoch blockIndex)
         (estimateGas chain (disputeBiggestStakeProposed epoch blockIndex))
         (send chain n (disputeBiggestStakeProposed epoch blockIndex)
            (estimateGas chain (disputeBiggestStakeProposed epoch blockIndex)))
    :: events (settle chain
                 (send chain n (disputeBiggestStakeProposed epoch blockIndex)
                    (estimateGas chain (disputeBiggestStakeProposed epoch blockIndex)))
                 (S n)).
Proof.
  intros Hne. unfold work, verifyBlock. rewrite bind_events. cbn [emit events value sent fst snd].
  apply Z.eqb_neq in Hne. rewrite Hne. cbn [negb].
  rewrite bind_events. reflexivity.
Qed.

Lemma verifyBlock_ids :
  BiggestStake blk = biggestStake ->
  work
  = [Verify blockIndex BiggestStakeMismatch; Verify blockIndex CollectionIdsMismatch]
    ++ events ids
    ++ match value ids with
       | Err err => [Log err]
       | Ok (Some _) => events (recordBounty chain (sent ids))
       | Ok None =>
         Verify blockIndex MedianMismatch
         :: match firstMismatch 0 (Medians blk) medians with
            | Some mismatchIndex =>
              events (Dispute chain epoch blockIndex mismatchIndex revealed maps (sent ids))
            | None => []
            end
       end.
Proof.
  intros He. unfold work, verifyBlock. rewrite bind_events. cbn [emit events value sent fst snd].
  apply Z.eqb_eq in He. rewrite He. cbn [negb].
  rewrite !bind_events. cbn [emit events value sent fst snd app]. fold ids.
  do 3 f_equal.
  destruct (value ids) as [[tx |] | err]; try reflexivity.
  rewrite bind_events. cbn [emit events value sent fst snd app].
  destruct (firstMismatch 0 (Medians blk) medians); reflexivity.
Qed.

Lemma disputeIds_outcome (tx : Txn) (gasLimit : Z) :
  (events (disputeIds chain tx gasLimit n) = [Submit tx gasLimit Accepted]
   /\ value (disputeIds chain tx gasLimit n) = Ok (Some tx))
  \/ (exists reason,
        events (disputeIds chain tx gasLimit n) = [Submit tx gasLimit (Rejected reason)]
        /\ value (disputeIds chain tx gasLimit n) = Err reason).
Proof.
  unfold disputeIds, bind, submit, ret, events, value. cbn.
  destruct (send chain n tx gasLimit) as [| reason].
  - left. split; reflexivity.
  - right. exists reason. split; reflexivity.
Qed.

Lemma disputeIdsWithIncreasedGas_outcome (tx : Txn) :
  (exists gasLimit,
     events (disputeIdsWithIncreasedGas chain gasMultiplier tx n)
     = [Submit tx gasLimit Accepted]
     /\ value (disputeIdsWithIncreasedGas chain gasMultiplier tx n) = Ok (Some tx))
  \/ (exists gasLimit reason,
        events (disputeIdsWithIncreasedGas chain gasMultiplier tx n)
        = [Submit tx gasLimit (Rejected reason)]
        /\ value (disputeIdsWithIncreasedGas chain gasMultiplier tx n) = Err reason)
  \/ (exists err,
        blockGasLimit chain = Err err
        /\ events (disputeIdsWithIncreasedGas chain gasMultiplier tx n) = []
        /\ value (disputeIdsWithIncreasedGas chain gasMultiplier tx n) = Err err).
Proof.
  unfold disputeIdsWithIncreasedGas, IncreaseGasLimitValue.
  destruct (blockGasLimit chain) as [cap | err].
  - destruct (disputeIds_outcome tx (Z.min (estimateGas chain tx * gasMultiplier) cap))
      as [[He Hv] | (reason & He & Hv)].
    + left. eexists. split; eassumption.
    + right. left. do 2 eexists. split; eassumption.
  - right. right. exists err. repeat split.
Qed.

(** What the check of the ids does and returns. *)
Lemma ids_outcome :
  (exists tx gasLimit,
     class_of tx = Some CollectionIdsMismatch
     /\ events ids = [Submit tx gasLimit Accepted] /\ value ids = Ok (Some tx))
  \/ (exists tx gasLimit reason,
        class_of tx = Some CollectionIdsMismatch
        /\ events ids = [Submit tx gasLimit (Rejected reason)] /\ value ids = Err reason)
  \/ (exists err, blockGasLimit chain = Err err /\ events ids = [] /\ value ids = Err err)
  \/ (StrictlyAscending (Ids blk) /\ (forall id, In id revealed <-> In id (Ids blk))
      /\ events ids = [] /\ value ids = Ok None).
Proof.
  destruct (CheckDisputeForIds_cases chain epoch gasMultiplier blockIndex (Ids blk) revealed n)
    as [(i & Hi & Hrun) | [(Hs & pos & id & Hf & Hrun)
         | [(Hs & Hall & pos & id & Hf & Hrun) | (Hs & Hsame & Hrun)]]];
    unfold ids; rewrite Hrun.
  - destruct (disputeIds_outcome (disputeOnOrderOfIds epoch blockIndex i (S i))
                (estimateGas chain (disputeOnOrderOfIds epoch blockIndex i (S i))))
      as [[He Hv] | (reason & He & Hv)].
    + left. do 2 eexists. split; [| split; eassumption]. reflexivity.
    + right. left. do 3 eexists. split; [| split; eassumption]. reflexivity.
  - destruct (disputeIdsWithIncreasedGas_outcome
                (disputeCollectionIdShouldBePresent epoch blockIndex id))
      as [(g & He & Hv) | [(g & reason & He & Hv) | (err & Hg & He & Hv)]].
    + left. do 2 eexists. split; [| split; eassumption]. reflexivity.
    + right. left. do 3 eexists. split; [| split; eassumption]. reflexivity.
    + right. right. left. exists err. auto.
  - destruct (disputeIdsWithIncreasedGas_outcome
                (disputeCollectionIdShouldBeAbsent epoch blockIndex id pos))
      as [(g & He & Hv) | [(g & reason & He & Hv) | (err & Hg & He & Hv)]].
    + left. do 2 eexists. split; [| split; eassumption]. reflexivity.
    + right. left. do 3 eexists. split; [| split; eassumption]. reflexivity.
    + right. right. left. exists err. auto.
  - right. right. right. auto.
Qed.



Lemma batches_verified (collectionId : Z) (most : nat) (new : list Event) :
  Forall (is_batch epoch collectionId most) new ->
  verified new = []
  /\ Forall (fun tx => class_of tx = Some MedianMismatch) (submissions new)
  /\ Forall (fun e => is_preparation e = true) new.
Proof.
  induction 1 as [| e new (values & g & r & -> & _) _ (IHv & IHs & IHp)].
  - repeat split; constructor.
  - repeat split.
    + exact IHv.
    + constructor; [reflexivity | exact IHs].
    + constructor; [reflexivity | exact IHp].
Qed.

(** A median dispute: the batches, then the finalizing transaction or a
    log line. *)
Lemma Dispute_events (mismatchIndex : nat) (m : nat) :
  exists batches closing,
    events (Dispute chain epoch blockIndex mismatchIndex revealed maps m)
    = batches ++ closing
    /\ Forall (is_batch epoch (nth mismatchIndex revealed 0) 20) batches
    /\ Closing closing
    /\ verified closing = []
    /\ Forall (fun tx => class_of tx = Some MedianMismatch) (submissions closing).
Proof.
  unfold Dispute. cbv zeta. rewrite bind_events.
  set (cid := nth mismatchIndex revealed 0).
  destruct (giveSortedFrom_events chain epoch cid (SortedRevealedValues maps cid)
              0 BatchSize m []) as (new & Hnew & Hall).
  unfold GiveSorted at 1. rewrite Hnew. cbn [app].
  exists new. destruct (value (GiveSorted chain epoch cid (SortedRevealedValues maps cid) m)).
  - rewrite bind_events. cbn [submit events value sent fst snd app].
    set (tx := finalizeDispute epoch blockIndex mismatchIndex).
    set (k := sent (GiveSorted chain epoch cid (SortedRevealedValues maps cid) m)).
    destruct (send chain k tx (estimateGas chain tx)) as [| reason] eqn:Hr.
    + destruct (proj2 (proj2 (proj2 (settle_events Accepted (S k)))) eq_refl)
        as [E | [err E]]; rewrite E; eexists; (split; [reflexivity |]);
        (split; [exact Hall |]); (split; [constructor |]);
        (split; [reflexivity |]); repeat constructor.
    + cbn [settle emit events fst].
      eexists. split; [reflexivity |]. split; [exact Hall |].
      split; [constructor |]. split; [reflexivity |]. repeat constructor.
  - eexists. split; [reflexivity |]. split; [exact Hall |].
    split; [constructor |]. split; [reflexivity |]. constructor.
  - eexists. split; [reflexivity |]. split; [exact Hall |].
    split; [constructor |]. split; [reflexivity |]. constructor.
Qed.


(** The work on a block is preparation followed by one closing. *)
Lemma verifyBlock_shape :
  exists head closing,
    work = head ++ closing
    /\ Forall (fun e => is_preparation e = true) head
    /\ Closing closing.
Proof.
  destruct (Z.eq_dec (BiggestStake blk) biggestStake) as [Heq | Hne].
  - rewrite (verifyBlock_ids Heq).
    destruct ids_outcome
      as [(tx & g & Hc & He & Hv) | [(tx & g & reason & Hc & He & Hv)
           | [(err & Hg & He & Hv) | (_ & _ & He & Hv)]]];
      rewrite He, Hv.
    + exists [Verify blockIndex BiggestStakeMismatch;
              Verify blockIndex CollectionIdsMismatch].
      destruct (recordBounty_events (sent ids)) as [E | [err E]]; rewrite E;
        eexists; (split; [reflexivity |]); split; repeat constructor.
    + exists [Verify blockIndex BiggestStakeMismatch;
              Verify blockIndex CollectionIdsMismatch].
      eexists. split; [reflexivity |]. split; repeat constructor.
    + exists [Verify blockIndex BiggestStakeMismatch;
              Verify blockIndex CollectionIdsMismatch].
      eexists. split; [reflexivity |]. split; repeat constructor.
    + destruct (firstMismatch 0 (Medians blk) medians) as [i |].
      * destruct (Dispute_events i (sent ids)) as (batches & closing & Hd & Hb & Hcl & _).
        rewrite Hd. destruct (batches_verified _ _ _ Hb) as (_ & _ & Hp).
        exists ([Verify blockIndex BiggestStakeMismatch;
                 Verify blockIndex CollectionIdsMismatch;
                 Verify blockIndex MedianMismatch] ++ batches), closing.
        split; [reflexivity |]. split; [| exact Hcl].
        apply Forall_app. split; [repeat constructor | exact Hp].
      * exists [Verify blockIndex BiggestStakeMismatch;
                Verify blockIndex CollectionIdsMismatch;
                Verify blockIndex MedianMismatch], [].
        split; [reflexivity |]. split; repeat constructor.
  - rewrite (verifyBlock_biggestStake Hne).
    exists [Verify blockIndex BiggestStakeMismatch].
    match goal with
    | |- context [settle chain ?r ?k] =>
      destruct r as [| reason] eqn:Hr
    end.
    + destruct (proj2 (proj2 (proj2 (settle_events Accepted (S n)))) eq_refl)
        as [E | [err E]]; rewrite E;
        eexists; (split; [reflexivity |]); split; repeat constructor.
    + cbn [settle emit events fst].
      eexists. split; [reflexivity |]. split; repeat constructor.
Qed.

End OneBlock.

Lemma visit_shape (sorted : list Z) (biggestStake : Z) (medians revealed : list Z)
  (maps : RevealedDataMaps) (blockId : Z) (m : nat) :
  exists head closing,
    events (visit chain epoch gasMultiplier sorted biggestStake medians revealed maps
              blockId m)
    = head ++ closing
    /\ Forall (fun e => is_preparation e = true) head
    /\ Closing closing.
Proof.
  unfold visit.
  destruct (GetProposedBlock chain blockId) as [blk | err].
  - destruct (IndexOf 0 sorted blockId) as [blockIndex |].
    + destruct (negb (lastVisitedValue chain blockIndex =? 0)).
      * exists [], []. repeat constructor.
      * destruct (negb (Valid blk)).
        -- exists [], []. repeat constructor.
        -- apply verifyBlock_shape.
    + exists []. eexists. split; [reflexivity |]. split; constructor.
  - exists []. eexists. split; [reflexivity |]. split; constructor.
Qed.

(** A rejected dispute transaction is the last thing done for its block
    but for the log line that reports the reason. *)
Lemma shape_rejected (head closing : list Event) (tx : Txn) (gasLimit : Z)
  (reason : error) :
  Forall (fun e => is_preparation e = true) head ->
  Closing closing ->
  In (Submit tx gasLimit (Rejected reason)) (head ++ closing) ->
  is_dispute tx = true ->
  closing = [Submit tx gasLimit (Rejected reason); Log reason].
Proof.
  intros Hhead Hclosing Hin Hd. apply in_app_or in Hin. destruct Hin as [Hin | Hin].
  - exfalso. rewrite Forall_forall in Hhead. specialize (Hhead _ Hin).
    cbn in Hhead. rewrite Hd in Hhead. discriminate.
  - destruct Hclosing; cbn in Hin;
      repeat (destruct Hin as [Hin | Hin]; [try discriminate |]); try contradiction.
    injection Hin as <- <- <-. reflexivity.
Qed.

Section OnePass.

Variable sorted : list Z.
Variables biggestStake biggestStakerId : Z.
Variables medians revealed : list Z.
Variable maps : RevealedDataMaps.

Hypothesis sorted_ok : GetSortedProposedBlockIds chain = Ok sorted.
Hypothesis biggest_ok : GetBiggestStakeAndId chain = Ok (biggestStake, biggestStakerId).
Hypothesis medians_ok : GetLocalMediansData chain = Ok (medians, revealed, maps).


(** C7. In a dispute pass whose canonical data was computed the result is
    no error, whatever the chain answers to the transactions. Every block
    of the shuffled list gets its turn, and when in that turn a dispute
    transaction is rejected, the turn ends with the submission and a log
    line with the reason, so that the pass continues with the next
    block. For the biggest-stake dispute, rejected for instance because
    the block is already disputed, the turn is the verification, the
    rejected submission and the log line. *)
Theorem HandleDispute_rejected_dispute_logged :
  snd (HandleDispute chain epoch gasMultiplier) = None
  /\ (forall blockId, In blockId (Shuffle chain sorted) ->
      exists m before after,
        fst (HandleDispute chain epoch gasMultiplier)
        = before
          ++ events (visit chain epoch gasMultiplier sorted biggestStake medians revealed
                       maps blockId m)
          ++ after
        /\ forall tx gasLimit reason,
             In (Submit tx gasLimit (Rejected reason))
               (events (visit chain epoch gasMultiplier sorted biggestStake medians
                          revealed maps blockId m)) ->
             is_dispute tx = true ->
             exists head,
               events (visit chain epoch gasMultiplier sorted biggestStake medians
                         revealed maps blockId m)
               = head ++ [Submit tx gasLimit (Rejected reason); Log reason])
  /\ (forall blockId blk blockIndex m reason,
        GetProposedBlock chain blockId = Ok blk ->
        IndexOf 0 sorted blockId = Some blockIndex ->
        lastVisitedValue chain blockIndex = 0 ->
        Valid blk = true ->
        BiggestStake blk <> biggestStake ->
        send chain m (disputeBiggestStakeProposed epoch blockIndex)
          (estimateGas chain (disputeBiggestStakeProposed epoch blockIndex))
        = Rejected reason ->
        events (visit chain epoch gasMultiplier sorted biggestStake medians revealed maps
                  blockId m)
        = [Verify blockIndex BiggestStakeMismatch;
           Submit (disputeBiggestStakeProposed epoch blockIndex)
             (estimateGas chain (disputeBiggestStakeProposed epoch blockIndex))
             (Rejected reason);
           Log reason]).
Proof.
  destruct (HandleDispute_visits sorted biggestStake biggestStakerId medians revealed maps
              sorted_ok biggest_ok medians_ok) as [Hnil Hvisits].
  split; [exact Hnil |]. split.
  - intros blockId Hin.
    destruct (Hvisits blockId Hin) as (m & before & after & Htrace).
    exists m, before, after. split; [exact Htrace |].
    intros tx gasLimit reason Hsub Hd.
    destruct (visit_shape sorted biggestStake medians revealed maps blockId m)
      as (head & closing & Heq & Hhead & Hclosing).
    rewrite Heq in Hsub |- *.
    rewrite (shape_rejected head closing tx gasLimit reason Hhead Hclosing Hsub Hd).
    exists head. reflexivity.
  - intros blockId blk blockIndex m reason Hblk Hidx Hlast Hvalid Hne Hsend.
    rewrite (visit_verifyBlock sorted biggestStake medians revealed maps blockId blk
               blockIndex Hblk Hidx Hlast Hvalid).
    rewrite (verifyBlock_biggestStake blockIndex blk biggestStake medians revealed maps m Hne).
    rewrite Hsend. reflexivity.
Qed.

End OnePass.

End HandleDisputeFacts.

(** ** The functions on concrete inputs *)


Lemma ascending_124 : Dispute.StrictlyAscending [1; 2; 4].
Proof. apply (proj1 (firstDescendingPair_None 0 [1; 2; 4])). reflexivity. Defined.

Lemma CheckDisputeForIds_subclass_witness :
  exists pos id,
    Dispute.first_lacking [1; 2; 3] [1; 2; 4] pos id
    /\ Dispute.submissions
         (Dispute.events
            (Dispute.CheckDisputeForIds dispute_chain 7 2 0%nat [1; 2; 4] [1; 2; 3] 0%nat))
       = [Dispute.disputeCollectionIdShouldBePresent 7 0%nat id].
Proof.
  destruct (CheckDisputeForIds_subclass dispute_chain 7 2 0%nat [1; 2; 4] [1; 2; 3] 0%nat)
    as (_ & Hmissing & _).
  destruct Hmissing as (pos & id & Hf & Hok & _).
  - exact ascending_124.
  - exists 3. split.
    + cbn. auto.
    + cbn. intros [H | [H | [H | []]]]; discriminate.
  - exists pos, id. split; [exact Hf |]. apply (Hok 30000000). reflexivity.
Defined.


Lemma HandleDispute_rejected_dispute_logged_witness :
  snd (Dispute.HandleDispute dispute_chain 7 2) = None
  /\ Dispute.events
       (Dispute.visit dispute_chain 7 2 [45; 65; 23; 64] 5356 [200; 7; 9] [1; 2; 3]
          revealed_maps 45 3%nat)
     = [Dispute.Verify 0%nat Dispute.BiggestStakeMismatch;
        Dispute.Submit (Dispute.disputeBiggestStakeProposed 7 0%nat) 1000
          (Dispute.Rejected "Block already has been disputed"%string);
        Dispute.Log "Block already has been disputed"].
Proof.
  destruct (HandleDispute_rejected_dispute_logged dispute_chain 7 2
              [45; 65; 23; 64] 5356 2 [200; 7; 9] [1; 2; 3] revealed_maps
              eq_refl eq_refl eq_refl) as (Hnil & _ & Hbiggest).
  split; [exact Hnil |].
  apply (Hbiggest 45 (block_with [1; 2; 3] [200; 7; 9] 4356) 0%nat 3%nat
           "Block already has been disputed"%string);
    try reflexivity.
  cbn. discriminate.
Defined.

(** The pass over the four blocks, visited in the shuffled order 64, 23,
    65, 45: nothing for the right block; for the wrong median the values
    [100, 200, 300] of collection 1 in batches that shrink from 20 to 2
    and then finalizeDispute; disputeOnOrderOfIds for the indices 1 and 2;
    the rejected biggest-stake dispute, logged; and the reset. *)
Example HandleDispute_on_the_four_blocks :
  Dispute.HandleDispute dispute_chain 7 2
  = ([Dispute.Verify 3%nat Dispute.BiggestStakeMismatch;
      Dispute.Verify 3%nat Dispute.CollectionIdsMismatch;
      Dispute.Verify 3%nat Dispute.MedianMismatch;
      Dispute.Verify 2%nat Dispute.BiggestStakeMismatch;
      Dispute.Verify 2%nat Dispute.CollectionIdsMismatch;
      Dispute.Verify 2%nat Dispute.MedianMismatch;
      Dispute.Submit (Dispute.giveSorted 7 1 [100; 200; 300]) 1000
        (Dispute.Rejected "gas limit reached"%string);
      Dispute.Submit (Dispute.giveSorted 7 1 [100; 200; 300]) 1000
        (Dispute.Rejected "gas limit reached"%string);
      Dispute.Submit (Dispute.giveSorted 7 1 [100; 200; 300]) 1000
        (Dispute.Rejected "gas limit reached"%string);
      Dispute.Submit (Dispute.giveSorted 7 1 [100; 200]) 1000 Dispute.Accepted;
      Dispute.Submit (Dispute.giveSorted 7 1 [300]) 1000 Dispute.Accepted;
      Dispute.Submit (Dispute.finalizeDispute 7 2%nat 0%nat) 1000 Dispute.Accepted;
      Dispute.StoreBountyId;
      Dispute.Verify 1%nat Dispute.BiggestStakeMismatch;
      Dispute.Verify 1%nat Dispute.CollectionIdsMismatch;
      Dispute.Submit (Dispute.disputeOnOrderOfIds 7 1%nat 1%nat 2%nat) 1000 Dispute.Accepted;
      Dispute.StoreBountyId;
      Dispute.Verify 0%nat Dispute.BiggestStakeMismatch;
      Dispute.Submit (Dispute.disputeBiggestStakeProposed 7 0%nat) 1000
        (Dispute.Rejected "Block already has been disputed"%string);
      Dispute.Log "Block already has been disputed";
      Dispute.Submit (Dispute.resetDispute 7) 1000 Dispute.Accepted],
     None).
Proof. vm_compute. reflexivity. Qed.

(** The rows of the test table of CheckDisputeForIds. *)
Example CheckDisputeForIds_order_of_ids :
  Dispute.CheckDisputeForIds dispute_chain 7 2 0%nat [1; 3; 2] [1; 2; 3] 0%nat
  = ([Dispute.Submit (Dispute.disputeOnOrderOfIds 7 0%nat 1%nat 2%nat) 1000 Dispute.Accepted],
     1%nat, Ok (Some (Dispute.disputeOnOrderOfIds 7 0%nat 1%nat 2%nat))).
Proof. reflexivity. Qed.

Example CheckDisputeForIds_should_be_present :
  Dispute.CheckDisputeForIds dispute_chain 7 2 0%nat [1; 2; 4] [1; 2; 3] 0%nat
  = ([Dispute.Submit (Dispute.disputeCollectionIdShouldBePresent 7 0%nat 3) 2000
        Dispute.Accepted],
     1%nat, Ok (Some (Dispute.disputeCollectionIdShouldBePresent 7 0%nat 3))).
Proof. reflexivity. Qed.

Example CheckDisputeForIds_should_be_absent :
  Dispute.CheckDisputeForIds dispute_chain 7 2 0%nat [1; 2; 3; 4] [1; 2; 3] 0%nat
  = ([Dispute.Submit (Dispute.disputeCollectionIdShouldBeAbsent 7 0%nat 4 3%nat) 2000
        Dispute.Accepted],
     1%nat, Ok (Some (Dispute.disputeCollectionIdShouldBeAbsent 7 0%nat 4 3%nat))).
Proof. reflexivity. Qed.

Example CheckDisputeForIds_gas_limit_error :
  Dispute.CheckDisputeForIds chain_without_gas_limit 7 2 0%nat [1; 2; 4] [1; 2; 3] 0%nat
  = ([], 0%nat, Err "error in incremented gas limit"%string)
  /\ Dispute.CheckDisputeForIds chain_without_gas_limit 7 2 0%nat [1; 2; 3; 4] [1; 2; 3] 0%nat
     = ([], 0%nat, Err "error in incremented gas limit"%string).
Proof. split; reflexivity. Qed.

Example CheckDisputeForIds_no_dispute :
  Dispute.CheckDisputeForIds dispute_chain 7 2 0%nat [1; 2; 3] [1; 2; 3] 0%nat
  = ([], 0%nat, Ok None).
Proof. reflexivity. Qed.

(** Passwords of single-byte characters. *)
Example strongPassword_examples :
  Password.strongPassword (fun _ => Password.Other) "Passw0rd!" = true
  /\ Password.strongPassword (fun _ => Password.Other) "Passw0rd !" = false
  /\ Password.strongPassword (fun _ => Password.Other) "Pw0rd!" = false
  /\ Password.strongPassword (fun _ => Password.Other) "password1!" = false.
Proof. repeat split; reflexivity. Qed.

(** * Further properties of the code *)

(** ** strongPassword and validate on every input *)

Section PasswordOnEveryInput.

Import Password.

Variable tables : Z -> Category.

(** A decoded rune is the byte itself (or U+FFFD) with width 1, or takes
    two to four bytes that the string has. *)
Lemma DecodeRuneInString_width (a : ascii) (rest : string) :
  (snd (DecodeRuneInString (String a rest)) = 1%nat
   /\ fst (DecodeRuneInString (String a rest)) = rune_of_byte a)
  \/ (2 <= snd (DecodeRuneInString (String a rest)) <= S (String.length rest))%nat.
Proof.
  unfold DecodeRuneInString, rune_of_byte.
  destruct (byte_of a <? 128) eqn:Hascii; [left; split; reflexivity |].
  destruct ((byte_of a <? 194) || (244 <? byte_of a)); [left; split; reflexivity |].
  destruct rest as [| a1 t1]; [left; split; reflexivity |].
  destruct (negb (between _ (byte_of a1) _)); [left; split; reflexivity |].
  destruct (byte_of a <? 224); [right; cbn; lia |].
  destruct t1 as [| a2 t2]; [left; split; reflexivity |].
  destruct (negb (continuation (byte_of a2))); [left; split; reflexivity |].
  destruct (byte_of a <? 240); [right; cbn; lia |].
  destruct t2 as [| a3 t3]; [left; split; reflexivity |].
  destruct (negb (continuation (byte_of a3))); [left; split; reflexivity |].
  right. cbn. lia.
Qed.

Lemma range_from_length (input : string) (skip : nat) :
  (List.length (range_from skip input) <= String.length input - skip)%nat.
Proof.
  revert skip. induction input as [| a rest IH]; intros skip; [cbn; lia |].
  cbn [range_from]. destruct skip as [| k].
  - destruct (DecodeRuneInString (String a rest)) as [char width].
    cbn [List.length String.length]. specialize (IH (Nat.pred width)). lia.
  - cbn [String.length]. specialize (IH k). lia.
Qed.

(** There are never more runes than bytes. *)
Lemma range_length (input : string) :
  (List.length (range input) <= String.length input)%nat.
Proof. unfold range. pose proof (range_from_length input 0). lia. Qed.

(** As many runes as bytes: every byte is a character of its own. *)
Lemma range_bytewise (input : string) :
  List.length (range input) = String.length input ->
  range input = map rune_of_byte (list_ascii_of_string input).
Proof.
  unfold range. induction input as [| a rest IH]; [reflexivity |].
  cbn [range_from list_ascii_of_string map String.length].
  pose proof (DecodeRuneInString_width a rest) as Hw.
  destruct (DecodeRuneInString (String a rest)) as [char width].
  cbn [fst snd] in Hw. cbn [List.length]. intros Hlen.
  pose proof (range_from_length rest (Nat.pred width)) as Hle.
  destruct Hw as [[-> ->] | Hwide]; [| lia].
  cbn [Nat.pred] in *. rewrite IH by lia. reflexivity.
Qed.

Lemma tally_le (f : Z -> bool) (rs : list Z) :
  tally f rs <= Z.of_nat (List.length rs).
Proof.
  unfold tally. pose proof (filter_length_le f rs). lia.
Qed.

(** What strongPassword computes, in terms of the runes and the bytes. *)
Lemma strongPassword_by_runes (input : string) :
  strongPassword tables input
  = strong_by_classes tables input
    && (Z.of_nat (List.length (range input)) =? len input).
Proof.
  unfold strongPassword, strong_by_classes. cbv zeta.
  destruct (Z.geb_spec (len input) 8) as [Hlen | Hlen].
  - destruct (Z.leb_spec 8 (len input)) as [_ | ?]; [| lia]. cbn [andb].
    destruct (count_tallies tables (range input) {| l := 0; u := 0; p := 0; d := 0 |})
      as (Hl & Hu & Hd & Hp).
    cbn [l u p d] in Hl, Hu, Hd, Hp. rewrite Hl, Hu, Hd, Hp. cbn [Z.add].
    rewrite !tally_positive, tally_classes.
    pose proof (tally_le (classified tables) (range input)) as Hle.
    pose proof (range_length input) as Hrunes.
    pose proof (tally_all (classified tables) (range input)) as Hall.
    assert (Hsum : (tally (classified tables) (range input) =? len input)
                   = forallb (classified tables) (range input)
                     && (Z.of_nat (List.length (range input)) =? len input)).
    { unfold len in *.
      destruct (forallb (classified tables) (range input)).
      - apply Z.eqb_eq in Hall. rewrite Hall. reflexivity.
      - apply Z.eqb_neq in Hall. cbn [andb]. apply Z.eqb_neq. lia. }
    rewrite Hsum.
    destruct (existsb (IsLower tables) (range input)),
      (existsb (IsUpper tables) (range input)),
      (existsb (IsNumber tables) (range input)),
      (existsb (IsPunctOrSymbol tables) (range input)),
      (forallb (classified tables) (range input)); reflexivity.
  - destruct (Z.leb_spec 8 (len input)) as [? | _]; [lia |]. reflexivity.
Qed.

(** X1. On every input strongPassword returns true exactly when the
    conditions on the classes hold of the runes (length at least 8 bytes,
    a lowercase letter, an uppercase letter, a number, a punctuation mark
    or symbol, nothing unclassified) and the input has as many runes as
    bytes. *)
Theorem strongPassword_decides (input : string) :
  strongPassword tables input = true <->
  strong_by_classes tables input = true
  /\ List.length (range input) = String.length input.
Proof.
  rewrite strongPassword_by_runes, andb_true_iff, Z.eqb_eq. unfold len.
  split; intros [Hclasses Hlen]; (split; [exact Hclasses |]).
  - apply Nat2Z.inj. exact Hlen.
  - rewrite Hlen. reflexivity.
Qed.

Lemma ascii_unclassified (b : Z) :
  0 <= b <= 32 \/ b = 127 -> classified tables b = false.
Proof.
  intros Hb. unfold classified, IsPunctOrSymbol, IsUpper, IsLower, IsNumber, IsPunct,
    IsSymbol, category, MaxLatin1.
  assert (Hin : between 0 b 255 = true).
  { unfold between. apply andb_true_intro. split; apply Z.leb_le; lia. }
  rewrite Hin.
  assert (Hother : properties b = Other).
  { destruct Hb as [Hb | ->]; [| reflexivity].
    unfold properties.
    repeat match goal with
    | |- context [b =? ?k] =>
      replace (b =? k) with false by (symmetry; apply Z.eqb_neq; lia)
    end.
    repeat match goal with
    | |- context [between ?lo b ?hi] =>
      replace (between lo b hi) with false
        by (symmetry; unfold between; apply andb_false_intro1; apply Z.leb_gt; lia)
    end.
    replace (b <? 161) with true by (symmetry; apply Z.ltb_lt; lia).
    reflexivity. }
  rewrite Hother. reflexivity.
Qed.

(** X2. A password that strongPassword accepts is read byte by byte: it
    has no multi-byte character, and none of its bytes is a space or an
    ASCII control character. *)
Theorem strongPassword_accepts_single_bytes (input : string) :
  strongPassword tables input = true ->
  range input = map rune_of_byte (list_ascii_of_string input)
  /\ forall a, In a (list_ascii_of_string input) ->
       ~ (0 <= byte_of a <= 32 \/ byte_of a = 127).
Proof.
  rewrite strongPassword_by_runes. intros H.
  apply andb_prop in H. destruct H as [Hstrong Hlen].
  assert (Hbytes : range input = map rune_of_byte (list_ascii_of_string input)).
  { apply range_bytewise. apply Z.eqb_eq in Hlen. unfold len in Hlen. lia. }
  split; [exact Hbytes |].
  intros a Hin Hbad.
  unfold strong_by_classes in Hstrong.
  apply andb_prop in Hstrong. destruct Hstrong as [_ Hall].
  rewrite forallb_forall in Hall.
  assert (Hrune : In (rune_of_byte a) (range input))
    by (rewrite Hbytes; apply in_map; exact Hin).
  specialize (Hall _ Hrune).
  assert (Hself : rune_of_byte a = byte_of a).
  { unfold rune_of_byte. destruct (Z.ltb_spec (byte_of a) 128); [reflexivity | lia]. }
  rewrite Hself, (ascii_unclassified (byte_of a) Hbad) in Hall. discriminate.
Qed.

(** X3. The prompt's check accepts exactly the passwords strongPassword
    accepts: the test for the empty input changes nothing, and an
    accepted password has at least 8 bytes. *)
Theorem validate_accepts (input : string) :
  (validate tables input = None <-> strongPassword tables input = true)
  /\ (validate tables input = None -> 8 <= len input).
Proof.
  assert (Hiff : validate tables input = None <-> strongPassword tables input = true).
  { unfold validate. destruct input as [| a rest].
    - cbn. split; discriminate.
    - cbn [String.eqb orb].
      destruct (strongPassword tables (String a rest)); cbn; split;
        congruence. }
  split; [exact Hiff |].
  intros Hv. apply Hiff in Hv. rewrite strongPassword_by_runes in Hv.
  apply andb_prop in Hv. destruct Hv as [Hs _]. unfold strong_by_classes in Hs.
  repeat (apply andb_prop in Hs; destruct Hs as [Hs _]).
  apply Z.leb_le. exact Hs.
Qed.

End PasswordOnEveryInput.

Lemma strongPassword_accepts_single_bytes_witness :
  Password.range "Passw0rd!"
  = map rune_of_byte (list_ascii_of_string "Passw0rd!")
  /\ forall a, In a (list_ascii_of_string "Passw0rd!") ->
       ~ (0 <= Password.byte_of a <= 32 \/ Password.byte_of a = 127).
Proof.
  apply (strongPassword_accepts_single_bytes (fun _ => Password.Other) "Passw0rd!").
  reflexivity.
Defined.

(** ** ClaimBounty on every input *)

Section ClaimBountyOnEveryInput.

Import ClaimBounty.

Variable Transaction : Type.
Variable EpochLength : Z.
Variable c : Chain Transaction.
Variable input : RedeemBountyInput.

Let run := ClaimBounty EpochLength c input.

(** X4. ClaimBounty never returns an error together with a hash: every
    error comes with the nil hash, and a hash other than the nil hash
    comes with a nil error and is the hash of the one redeemBounty
    transaction that was submitted for the bounty id. *)
Theorem ClaimBounty_hash_or_error :
  (snd (snd run) <> None -> fst (snd run) = NilHash)
  /\ (fst (snd run) <> NilHash ->
      snd (snd run) = None
      /\ submitted (fst run) = [CallRedeemBounty (BountyId input)]
      /\ exists tx, RedeemBounty c (BountyId input) = Ok tx
                    /\ fst (snd run) = Hash c tx).
Proof.
  unfold run, ClaimBounty.
  destruct (GetEpoch c) as [epoch | err]; [| cbn; split; [reflexivity | contradiction]].
  destruct (GetBountyLock c (BountyId input)) as [lock | err];
    [| cbn; split; [reflexivity | contradiction]].
  destruct (Amount lock =? 0); [cbn; split; [reflexivity | contradiction] |].
  cbv zeta.
  destruct (int32 (int32 (RedeemAfter lock) - int32 epoch) >? 0);
    [cbn; split; [reflexivity | contradiction] |].
  destruct (RedeemBounty c (BountyId input)) as [tx | err]; cbn.
  - split; [contradiction |]. intros _. repeat split. exists tx. auto.
  - split; [reflexivity | contradiction].
Qed.

(** X5. ClaimBounty submits at most one transaction, redeemBounty for the
    bounty id of its input, and it submits it exactly when the epoch and
    the bounty lock were read, the amount is not zero and the int32
    difference of redeemAfter and the epoch is not positive. *)
Theorem ClaimBounty_submits_when :
  (submitted (fst run) = [] \/ submitted (fst run) = [CallRedeemBounty (BountyId input)])
  /\ (submitted (fst run) <> [] <->
      exists epoch lock,
        GetEpoch c = Ok epoch
        /\ GetBountyLock c (BountyId input) = Ok lock
        /\ Amount lock <> 0
        /\ int32 (int32 (RedeemAfter lock) - int32 epoch) <= 0).
Proof.
  unfold run, ClaimBounty.
  destruct (GetEpoch c) as [epoch | err].
  2:{ cbn. split; [left; reflexivity |]. split; [contradiction |].
      intros (e & l & H & _). discriminate. }
  destruct (GetBountyLock c (BountyId input)) as [lock | err].
  2:{ cbn. split; [left; reflexivity |]. split; [contradiction |].
      intros (e & l & _ & H & _). discriminate. }
  destruct (Z.eqb_spec (Amount lock) 0) as [Hz | Hnz].
  { cbn. split; [left; reflexivity |]. split; [contradiction |].
    intros (e & l & _ & [= <-] & Ha & _). contradiction. }
  cbv zeta.
  destruct (Z.gtb_spec (int32 (int32 (RedeemAfter lock) - int32 epoch)) 0) as [Hgt | Hle].
  { cbn. split; [left; reflexivity |]. split; [contradiction |].
    intros (e & l & [= <-] & [= <-] & _ & Hd). lia. }
  assert (Hsub : submitted
            (fst (match RedeemBounty c (BountyId input) with
                  | Ok tx =>
                    ([LogInfo "Claiming bounty transaction...";
                      CallRedeemBounty (BountyId input)], (Hash c tx, None))
                  | Err err =>
                    ([LogInfo "Claiming bounty transaction...";
                      CallRedeemBounty (BountyId input)], (NilHash, Some err))
                  end)) = [CallRedeemBounty (BountyId input)])
    by (destruct (RedeemBounty c (BountyId input)); reflexivity).
  rewrite Hsub. split; [right; reflexivity |]. split.
  - intros _. exists epoch, lock. auto.
  - intros _. discriminate.
Qed.

(** X6. While the lock is not over ClaimBounty reports the wait and does
    nothing else: for a nonzero amount and a redeemAfter that is d epochs
    ahead, 0 < d < 2^31, with d * EpochLength within int64, the trace is
    the two progress lines and the report of d epochs and d * EpochLength
    seconds, worded in the singular exactly when d is 1. *)
Theorem ClaimBounty_wait_report (epoch : Z) (lock : BountyLock) :
  GetEpoch c = Ok epoch ->
  GetBountyLock c (BountyId input) = Ok lock ->
  Amount lock <> 0 ->
  0 < RedeemAfter lock - epoch < 2 ^ 31 ->
  - 2 ^ 63 <= (RedeemAfter lock - epoch) * EpochLength < 2 ^ 63 ->
  fst run
  = [LogInfo "Claiming bounty transaction...";
     LogDebug "Waiting for lock period to get over....";
     LogWait (RedeemAfter lock - epoch)
       (negb (RedeemAfter lock - epoch =? 1))
       ((RedeemAfter lock - epoch) * EpochLength)].
Proof.
  intros He Hl Ha Hd Ht. unfold run, ClaimBounty. rewrite He, Hl.
  apply Z.eqb_neq in Ha. rewrite Ha. cbv zeta.
  rewrite int32_sub by lia.
  destruct (Z.gtb_spec (RedeemAfter lock - epoch) 0) as [_ | Hle]; [| lia].
  cbn [fst]. do 3 f_equal.
  set (d := RedeemAfter lock - epoch) in *.
  assert (Hd64 : int64 d = d).
  { unfold int64. rewrite Z.mod_small; lia. }
  rewrite Hd64. unfold int64. rewrite Z.mod_small by lia. f_equal. lia.
Qed.

End ClaimBountyOnEveryInput.

Lemma ClaimBounty_wait_report_witness :
  fst (ClaimBounty.ClaimBounty 300 (chain_at 5 (lock_of 7 1)) bounty7)
  = [ClaimBounty.LogInfo "Claiming bounty transaction...";
     ClaimBounty.LogDebug "Waiting for lock period to get over....";
     ClaimBounty.LogWait (7 - 5) (negb (7 - 5 =? 1)) ((7 - 5) * 300)].
Proof.
  apply (ClaimBounty_wait_report Z 300 (chain_at 5 (lock_of 7 1)) bounty7 5 (lock_of 7 1));
    [reflexivity | reflexivity | cbn; lia | cbn; lia | cbn; lia].
Defined.

(** ** GetDataFromAPI on every answer *)

Section ApiOnEveryAnswer.

Import Api.

Variable http : string -> nat -> Exchange.
Variable url : string.

Lemma exchange_error_None (x : Exchange) :
  exchange_error x = None <-> exists body, x = Response 200 (Ok body).
Proof.
  unfold exchange_error. destruct x as [err | code [b | err]].
  - split; [discriminate | intros [body H]; discriminate].
  - destruct (Z.eqb_spec code 200) as [-> | Hne].
    + split; [intros _; exists b; reflexivity | reflexivity].
    + split; [discriminate | intros [body [= H _]]; contradiction].
  - destruct (Z.eqb_spec code 200) as [-> | Hne];
      (split; [discriminate | intros [body H]; discriminate]).
Qed.

(** The closure's error, its events and the body it leaves. *)
Lemma attempt_result (n : nat) (old : string) :
  snd (attempt http url n old) = exchange_error (http url n)
  /\ fst (fst (attempt http url n old))
     = HttpGet client_Timeout url
       :: match http url n with
          | Response code _ => if code =? 200 then [] else [LogStatus url code]
          | GetFailed _ => []
          end.
Proof.
  unfold attempt, exchange_error. destruct (http url n) as [err | code [b | err]].
  - split; reflexivity.
  - destruct (code =? 200); split; reflexivity.
  - destruct (code =? 200); split; reflexivity.
Qed.

Lemma GetDataFromAPI_unfold :
  GetDataFromAPI http url
  = let '(evs0, body0, r0) := attempt http url 0 EmptyString in
    match r0 with
    | None => (evs0, Body body0)
    | Some err0 =>
      let '(evs1, body1, r1) := attempt http url 1 body0 in
      match r1 with
      | None => (evs0 ++ Wait 2 0 :: evs1, Body body1)
      | Some err1 => (evs0 ++ Wait 2 0 :: evs1, Failed [err0; err1])
      end
    end.
Proof.
  unfold GetDataFromAPI, retry_Attempts, retry_Delay. cbn [retry_Do].
  destruct (attempt http url 0 EmptyString) as [[evs0 body0] [err0 |]]; [| reflexivity].
  destruct (attempt http url 1 body0) as [[evs1 body1] [err1 |]]; reflexivity.
Qed.

(** X7. When GetDataFromAPI fails its error lists two errors, that of the
    first attempt and that of the second, in this order; each is the
    transport error, "unable to reach API" for a status other than 200,
    or the error of reading the body. With one failed attempt or none it
    does not fail. *)
Theorem GetDataFromAPI_errors (errs : list error) :
  snd (GetDataFromAPI http url) = Failed errs <->
  exists err0 err1,
    errs = [err0; err1]
    /\ exchange_error (http url 0) = Some err0
    /\ exchange_error (http url 1) = Some err1.
Proof.
  rewrite GetDataFromAPI_unfold.
  pose proof (attempt_result 0 EmptyString) as [H0 _].
  destruct (attempt http url 0 EmptyString) as [[evs0 body0] r0]. cbn [snd] in H0.
  pose proof (attempt_result 1 body0) as [H1 _].
  destruct (attempt http url 1 body0) as [[evs1 body1] r1]. cbn [snd] in H1.
  rewrite <- H0, <- H1.
  destruct r0 as [err0 |]; [destruct r1 as [err1 |] |]; cbn [snd]; split.
  - intros [= <-]. exists err0, err1. auto.
  - intros (e0 & e1 & -> & [= <-] & [= <-]). reflexivity.
  - discriminate.
  - intros (e0 & e1 & _ & _ & H). discriminate.
  - discriminate.
  - intros (e0 & e1 & _ & H & _). discriminate.
Qed.

(** X8. GetDataFromAPI logs a status code exactly when an attempt it made
    was answered with a status other than 200: the first attempt, or the
    second after a failed first one. The line carries the URL and the
    code; transport errors and unreadable bodies are not logged. *)
Theorem GetDataFromAPI_logs_status (u : string) (code : Z) :
  In (LogStatus u code) (fst (GetDataFromAPI http url)) <->
  u = url /\ code <> 200
  /\ ((exists read, http url 0 = Response code read)
      \/ (exchange_error (http url 0) <> None
          /\ exists read, http url 1 = Response code read)).
Proof.
  rewrite GetDataFromAPI_unfold.
  pose proof (attempt_result 0 EmptyString) as [H0 E0].
  destruct (attempt http url 0 EmptyString) as [[evs0 body0] r0].
  cbn [fst snd] in H0, E0.
  pose proof (attempt_result 1 body0) as [H1 E1].
  destruct (attempt http url 1 body0) as [[evs1 body1] r1].
  cbn [fst snd] in H1, E1.
  assert (Hev : forall n evs,
            evs = HttpGet client_Timeout url
                  :: match http url n with
                     | Response c _ => if c =? 200 then [] else [LogStatus url c]
                     | GetFailed _ => []
                     end ->
            (In (LogStatus u code) evs <->
             u = url /\ code <> 200 /\ exists read, http url n = Response code read)).
  { intros n evs ->. destruct (http url n) as [err | c read].
    - split.
      + intros [H | []]. discriminate.
      + intros (_ & _ & read & H). discriminate.
    - destruct (Z.eqb_spec c 200) as [-> | Hne]; split.
      + intros [H | []]. discriminate.
      + intros (_ & Hc & read' & [= <- _]). contradiction.
      + intros [H | [[= <- <-] | []]]; [discriminate |].
        repeat split; [exact Hne |]. exists read. reflexivity.
      + intros (-> & _ & read' & [= <- _]). right. left. reflexivity. }
  pose proof (Hev 0%nat evs0 E0) as L0. pose proof (Hev 1%nat evs1 E1) as L1.
  rewrite <- H0.
  destruct r0 as [err0 |].
  - assert (Hin : In (LogStatus u code)
                    (fst (let r := r1 in
                          match r with
                          | Some err1 => (evs0 ++ Wait 2 0 :: evs1, Failed [err0; err1])
                          | None => (evs0 ++ Wait 2 0 :: evs1, Body body1)
                          end))
                  <-> In (LogStatus u code) evs0 \/ In (LogStatus u code) evs1).
    { destruct r1; cbn [fst]; rewrite in_app_iff; cbn [In]; split.
      - intros [H | [H | H]]; [left; exact H | discriminate | right; exact H].
      - intros [H | H]; [left; exact H | right; right; exact H].
      - intros [H | [H | H]]; [left; exact H | discriminate | right; exact H].
      - intros [H | H]; [left; exact H | right; right; exact H]. }
    cbv zeta in Hin. rewrite Hin, L0, L1. split.
    + intros [(Hu & Hc & Hr) | (Hu & Hc & Hr)]; repeat split; auto.
      right. split; [discriminate | exact Hr].
    + intros (Hu & Hc & [Hr | [_ Hr]]); [left | right]; auto.
  - cbn [fst]. rewrite L0. split.
    + intros (Hu & Hc & Hr). auto.
    + intros (Hu & Hc & [Hr | [Hne _]]); [auto | contradiction].
Qed.

(** X9. After an attempt that succeeded nothing more is done: the first
    exchange is a 200 with a readable body exactly when the whole trace
    is the one GET request, and then that body is returned. *)
Theorem GetDataFromAPI_no_retry_after_success :
  (fst (GetDataFromAPI http url) = [HttpGet 10 url] <->
   exists body, http url 0 = Response 200 (Ok body))
  /\ (forall body, http url 0 = Response 200 (Ok body) ->
        GetDataFromAPI http url = ([HttpGet 10 url], Body body)).
Proof.
  assert (Hok : forall body, http url 0 = Response 200 (Ok body) ->
                  GetDataFromAPI http url = ([HttpGet 10 url], Body body)).
  { intros body H. rewrite GetDataFromAPI_unfold.
    unfold attempt. rewrite H. reflexivity. }
  split; [| exact Hok]. split.
  - intros Htrace. apply exchange_error_None.
    rewrite GetDataFromAPI_unfold in Htrace.
    pose proof (attempt_result 0 EmptyString) as [H0 E0].
    destruct (attempt http url 0 EmptyString) as [[evs0 body0] r0].
    cbn [fst snd] in H0, E0. rewrite <- H0.
    destruct r0 as [err0 |]; [| reflexivity]. exfalso.
    destruct (attempt http url 1 body0) as [[evs1 body1] r1].
    assert (Hlen : List.length (evs0 ++ Wait 2 0 :: evs1) = 1%nat)
      by (destruct r1; cbn [fst] in Htrace; rewrite Htrace; reflexivity).
    rewrite length_app, E0 in Hlen. cbn [List.length] in Hlen. lia.
  - intros [body H]. rewrite (Hok body H). reflexivity.
Qed.

End ApiOnEveryAnswer.

(** ** GetDataFromJSON and GetDataFromXHTML *)

(** X10. Different selectors are never evaluated as the same JSON path:
    with a jsonpath.Get that hands back the path it is given, two
    selectors with the same outcome are the same selector. The prefix "$"
    for a selector that begins with '[' and "$." for any other cannot
    make two selectors collide. *)
Theorem GetDataFromJSON_selectors_apart (selector1 selector2 : string) :
  selector1 <> selector2 ->
  Api.GetDataFromJSON (fun path (_ : unit) => Ok path) tt selector1
  <> Api.GetDataFromJSON (fun path (_ : unit) => Ok path) tt selector2.
Proof.
  intros Hne Heq. apply Hne. clear Hne.
  destruct selector1 as [| c1 rest1], selector2 as [| c2 rest2];
    [reflexivity | | |]; unfold Api.GetDataFromJSON in Heq.
  - destruct (Ascii.eqb c2 "["%char); discriminate.
  - destruct (Ascii.eqb c1 "["%char); discriminate.
  - destruct (Ascii.eqb_spec c1 "["%char) as [-> | H1],
      (Ascii.eqb_spec c2 "["%char) as [-> | H2]; cbn in Heq.
    + injection Heq as <-. reflexivity.
    + injection Heq as E _. exfalso. discriminate E.
    + injection Heq as E _. exfalso. discriminate E.
    + injection Heq as <- <-. reflexivity.
Qed.

Lemma GetDataFromJSON_selectors_apart_witness :
  Api.GetDataFromJSON (fun path (_ : unit) => Ok path) tt "[0]"
  <> Api.GetDataFromJSON (fun path (_ : unit) => Ok path) tt "0".
Proof.
  apply (GetDataFromJSON_selectors_apart "[0]" "0"). discriminate.
Defined.

Section XhtmlFacts.

Import Xhtml.

Variable Visit : string -> string -> list string * option error.
Variables url selector : string.

Lemma last_default (t : string) (texts : list string) (d1 d2 : string) :
  last (t :: texts) d1 = last (t :: texts) d2.
Proof.
  revert t. induction texts as [| t' texts IH]; intros t; [reflexivity |].
  change (last (t' :: texts) d1 = last (t' :: texts) d2). apply IH.
Qed.

Lemma fold_left_overwrite (texts : list string) (start : string) :
  fold_left (fun _ text => text) texts start = last texts start.
Proof.
  revert start. induction texts as [| t texts IH]; intros start; [reflexivity |].
  cbn [fold_left]. rewrite IH. destruct texts as [| t' texts]; [reflexivity |].
  change (last (t' :: texts) t = last (t' :: texts) start). apply last_default.
Qed.

(** X11. GetDataFromXHTML returns the text of the last element the
    selector matched. When nothing matched it returns the empty string
    with a nil error, so a selector that misses is not an error; and when
    Visit fails it returns the empty string and the error, whatever was
    matched before. *)
Theorem GetDataFromXHTML_result :
  (forall texts, Visit url selector = (texts, None) ->
     GetDataFromXHTML Visit url selector = (last texts EmptyString, None))
  /\ (Visit url selector = ([], None) ->
      GetDataFromXHTML Visit url selector = (EmptyString, None))
  /\ (forall texts err, Visit url selector = (texts, Some err) ->
        GetDataFromXHTML Visit url selector = (EmptyString, Some err)).
Proof.
  unfold GetDataFromXHTML. repeat split.
  - intros texts H. rewrite H, fold_left_overwrite. reflexivity.
  - intros H. rewrite H. reflexivity.
  - intros texts err H. rewrite H. reflexivity.
Qed.

End XhtmlFacts.

(** ** The helpers of the dispute tests *)

Section DummyIdsFacts.

Import DummyIds.

Lemma upwards_S (first : Z) (count : nat) :
  upwards first (S count) = first :: upwards (first + 1) count.
Proof.
  unfold upwards. cbn [seq map]. f_equal; [lia |].
  rewrite <- seq_shift, map_map. apply map_ext. intros k. lia.
Qed.

Lemma upwards_length (first : Z) (count : nat) :
  List.length (upwards first count) = count.
Proof. unfold upwards. rewrite length_map, length_seq. reflexivity. Qed.

Lemma getDummyIds_from_returns (count : nat) :
  forall (i : Z) (result : list Z) (fuel : nat) (numOfIds : Z),
    0 <= numOfIds < 65535 -> 1 <= i -> i + Z.of_nat count = numOfIds + 1 ->
    (count < fuel)%nat ->
    getDummyIds_from fuel numOfIds i result = Some (result ++ upwards i count).
Proof.
  induction count as [| count IH]; intros i result fuel numOfIds Hn Hi Hsum Hfuel;
    (destruct fuel as [| fuel]; [lia |]); cbn [getDummyIds_from].
  - destruct (Z.leb_spec i numOfIds); [lia |]. cbn. rewrite app_nil_r. reflexivity.
  - destruct (Z.leb_spec i numOfIds); [| lia].
    rewrite Z.mod_small by lia.
    rewrite (IH (i + 1) (result ++ [i]) fuel numOfIds) by lia.
    rewrite upwards_S, <- app_assoc. reflexivity.
Qed.

(** X12. For every numOfIds below 65535 getDummyIds returns the ids 1, 2,
    ..., numOfIds, as soon as the fuel allows numOfIds + 1 tests of the
    loop condition. *)
Theorem getDummyIds_returns (numOfIds : Z) (fuel : nat) :
  0 <= numOfIds < 65535 ->
  (Z.to_nat numOfIds < fuel)%nat ->
  getDummyIds fuel numOfIds = Some (upwards 1 (Z.to_nat numOfIds))
  /\ List.length (upwards 1 (Z.to_nat numOfIds)) = Z.to_nat numOfIds.
Proof.
  intros Hn Hfuel. split; [| apply upwards_length].
  unfold getDummyIds.
  rewrite (getDummyIds_from_returns (Z.to_nat numOfIds) 1 [] fuel numOfIds) by lia.
  reflexivity.
Qed.

Lemma getDummyIds_returns_witness :
  getDummyIds 4 3 = Some (upwards 1 (Z.to_nat 3))
  /\ List.length (upwards 1 (Z.to_nat 3)) = Z.to_nat 3.
Proof.
  apply (getDummyIds_returns 3 4); [lia | cbn; lia].
Defined.

Lemma getDummyIds_from_65535 (fuel : nat) :
  forall (i : Z) (result : list Z),
    0 <= i < 2 ^ 16 -> getDummyIds_from fuel 65535 i result = None.
Proof.
  induction fuel as [| fuel IH]; intros i result Hi; [reflexivity |].
  cbn [getDummyIds_from]. destruct (Z.leb_spec i 65535); [| lia].
  apply IH. apply Z.mod_pos_bound. lia.
Qed.

(** X13. getDummyIds(65535) does not return: the counter is a uint16, so
    the loop condition i <= 65535 holds of every value it takes, and no
    amount of fuel reaches the end of the loop. *)
Theorem getDummyIds_65535_loops (fuel : nat) :
  getDummyIds fuel 65535 = None.
Proof.
  unfold getDummyIds. apply getDummyIds_from_65535. lia.
Qed.

Lemma getUint32DummyIds_from_returns (count : nat) :
  forall (i : Z) (result : list Z) (fuel : nat) (numOfIds : Z),
    0 <= numOfIds < 2 ^ 32 -> 1 <= i -> i + Z.of_nat count = Z.max numOfIds 1 ->
    (count < fuel)%nat ->
    getUint32DummyIds_from fuel numOfIds i result = Some (result ++ upwards i count).
Proof.
  induction count as [| count IH]; intros i result fuel numOfIds Hn Hi Hsum Hfuel;
    (destruct fuel as [| fuel]; [lia |]); cbn [getUint32DummyIds_from].
  - destruct (Z.ltb_spec i numOfIds); [lia |]. cbn. rewrite app_nil_r. reflexivity.
  - destruct (Z.ltb_spec i numOfIds); [| lia].
    rewrite Z.mod_small by lia.
    rewrite (IH (i + 1) (result ++ [i]) fuel numOfIds) by lia.
    rewrite upwards_S, <- app_assoc. reflexivity.
Qed.

(** X14. getUint32DummyIds returns the ids 1, 2, ..., numOfIds - 1: one id
    fewer than its argument says, and none for 0 and for 1. It returns
    for every uint32 once the fuel allows numOfIds tests of the loop
    condition. *)
Theorem getUint32DummyIds_returns (numOfIds : Z) (fuel : nat) :
  0 <= numOfIds < 2 ^ 32 ->
  (Z.to_nat numOfIds < fuel)%nat ->
  getUint32DummyIds fuel numOfIds = Some (upwards 1 (Z.to_nat numOfIds - 1))
  /\ List.length (upwards 1 (Z.to_nat numOfIds - 1)) = (Z.to_nat numOfIds - 1)%nat.
Proof.
  intros Hn Hfuel. split; [| apply upwards_length].
  unfold getUint32DummyIds.
  rewrite (getUint32DummyIds_from_returns (Z.to_nat numOfIds - 1) 1 [] fuel numOfIds)
    by lia.
  reflexivity.
Qed.

Lemma getUint32DummyIds_returns_witness :
  getUint32DummyIds 6 5 = Some (upwards 1 (Z.to_nat 5 - 1))
  /\ List.length (upwards 1 (Z.to_nat 5 - 1)) = (Z.to_nat 5 - 1)%nat.
Proof.
  apply (getUint32DummyIds_returns 5 6); [lia | cbn; lia].
Defined.

End DummyIdsFacts.

(** ** ClaimBounty at the limits of int32 *)

Lemma int32_sub_wraps (a b : Z) : int32 (int32 a - int32 b) = int32 (a - b).
Proof.
  unfold int32. f_equal.
  replace ((a + 2 ^ 31) mod 2 ^ 32 - 2 ^ 31 - ((b + 2 ^ 31) mod 2 ^ 32 - 2 ^ 31) + 2 ^ 31)
    with ((a + 2 ^ 31) mod 2 ^ 32 - (b + 2 ^ 31) mod 2 ^ 32 + 2 ^ 31) by lia.
  rewrite Zplus_mod, <- Zminus_mod, <- Zplus_mod. f_equal. lia.
Qed.

Lemma int32_high (x : Z) : 2 ^ 31 <= x < 2 ^ 32 -> int32 x = x - 2 ^ 32.
Proof.
  intros H. unfold int32.
  replace (x + 2 ^ 31) with (x - 2 ^ 31 + 1 * 2 ^ 32) by lia.
  rewrite Z_mod_plus_full, Z.mod_small; lia.
Qed.

Lemma int32_low (x : Z) : - 2 ^ 32 < x < - 2 ^ 31 -> int32 x = x + 2 ^ 32.
Proof.
  intros H. unfold int32.
  replace (x + 2 ^ 31) with (x + 2 ^ 32 + 2 ^ 31 + (-1) * 2 ^ 32) by lia.
  rewrite Z_mod_plus_full, Z.mod_small; lia.
Qed.

Section ClaimBountyLimits.

Import ClaimBounty.

Variable Transaction : Type.
Variable EpochLength : Z.
Variable c : Chain Transaction.
Variable input : RedeemBountyInput.

(** X15. The comparison of redeemAfter with the epoch is made on their
    int32 difference, so for uint32 values that are 2^31 or more apart
    it comes out the other way round: a bounty with nonzero amount whose
    redeemAfter is 2^31 or more epochs ahead is redeemed at once, and one
    whose redeemAfter lies more than 2^31 epochs back is made to wait
    (for redeemAfter - epoch + 2^32 epochs). *)
Theorem ClaimBounty_far_apart (epoch : Z) (lock : BountyLock) :
  GetEpoch c = Ok epoch ->
  GetBountyLock c (BountyId input) = Ok lock ->
  Amount lock <> 0 ->
  0 <= epoch < 2 ^ 32 ->
  0 <= RedeemAfter lock < 2 ^ 32 ->
  (2 ^ 31 <= RedeemAfter lock - epoch ->
     submitted (fst (ClaimBounty EpochLength c input))
     = [CallRedeemBounty (BountyId input)])
  /\ (RedeemAfter lock - epoch < - 2 ^ 31 ->
      submitted (fst (ClaimBounty EpochLength c input)) = []
      /\ reports_wait (fst (ClaimBounty EpochLength c input))
           (RedeemAfter lock - epoch + 2 ^ 32)
      /\ snd (ClaimBounty EpochLength c input) = (NilHash, None)).
Proof.
  intros He Hl Ha Hepoch Hredeem.
  apply Z.eqb_neq in Ha.
  split; intros Hd; unfold ClaimBounty; rewrite He, Hl, Ha; cbv zeta;
    rewrite int32_sub_wraps.
  - rewrite int32_high by lia.
    destruct (Z.gtb_spec (RedeemAfter lock - epoch - 2 ^ 32) 0) as [Hgt | _]; [lia |].
    destruct (RedeemBounty c (BountyId input)); reflexivity.
  - rewrite int32_low by lia.
    destruct (Z.gtb_spec (RedeemAfter lock - epoch + 2 ^ 32) 0) as [_ | Hle]; [| lia].
    repeat split. eexists; eexists. cbn. right; right; left. reflexivity.
Qed.

End ClaimBountyLimits.

Lemma ClaimBounty_far_apart_witness :
  ClaimBounty.submitted
    (fst (ClaimBounty.ClaimBounty 300 (chain_at 0 (lock_of (2 ^ 31) 1)) bounty7))
  = [ClaimBounty.CallRedeemBounty 7].
Proof.
  destruct (ClaimBounty_far_apart Z 300 (chain_at 0 (lock_of (2 ^ 31) 1)) bounty7
              0 (lock_of (2 ^ 31) 1)) as [Hahead _];
    [reflexivity | reflexivity | cbn; lia | lia | cbn; lia |].
  apply Hahead. cbn. lia.
Defined.
